(** * CognifAI: the spaced-repetition scheduler and the Gemini question parser

    A shallow embedding of [services/spacedRepetition.ts] (class
    [SpacedRepetitionService]) and [services/gemini.ts] (class
    [GeminiService]), with the theorems that relate them to the written
    specification.

    Modelling conventions.
    - A JavaScript [number] is embedded twice.  Where a statement is about
      order, bounds and counting, it is an exact rational ([Q]) and results
      are compared with [==] ([Qeq]); the rounding error of doubles and the
      values NaN and Infinity are outside that model.  Where a statement
      gives the figures themselves ([calculateMasteryLevel],
      [generateSessionStats]), it is an IEEE 754 double (the primitive
      [float]), NaN, the infinities and the two zeros included.
    - A [Date] is its [getTime()] value, a number of milliseconds ([Z]);
      the local clock that [getHours] and [setHours] work on is a
      parameter, a [TimeZone].
    - A [string] is a [String.string] of bytes; whitespace and letter case
      follow ASCII.
    - [undefined] for an optional field is [None]. *)

From Stdlib Require Import QArith Qround Qabs Qminmax ZArith Lia Lqa.
From Stdlib Require Import List Bool String Ascii Permutation Sorted.
From Stdlib Require Import Floats.
Import ListNotations.

Local Open Scope Q_scope.

(** ** JavaScript numbers and the [Math] functions the services call *)

Module JS.

Definition number := Q.

Definition Math_max (a b : number) : number := Qmax a b.
Definition Math_min (a b : number) : number := Qmin a b.

(** [Math.round] rounds to the nearest integer, a tie towards +infinity. *)
Definition Math_round (x : number) : number := inject_Z (Qfloor (x + (1 # 2))).

Definition Math_abs (x : number) : number := Qabs x.

(** [ToBoolean] on a number: only zero is falsy. *)
Definition truthy (x : number) : bool := negb (Qeq_bool x 0).

(** [x || d] on numbers. *)
Definition or_else (x d : number) : number := if truthy x then x else d.

(** [ToIntegerOrInfinity]: the integral part, towards zero. *)
Definition truncate (x : number) : Z :=
  if Qle_bool 0 x then Qfloor x else Qceiling x.

(** [a === b], [a > b], [a >= b] and [a <= b] on numbers. *)
Definition seq (a b : number) : bool := Qeq_bool a b.
Definition gt (a b : number) : bool := negb (Qle_bool a b).
Definition ge (a b : number) : bool := Qle_bool b a.
Definition le (a b : number) : bool := Qle_bool a b.

End JS.

(** ** [SpacedRepetitionService] *)

Module SpacedRepetition.
Import JS.

Record SpacedRepetitionConfig := {
  initialInterval : number;
  maxInterval : number;
  minInterval : number;
  easyBonus : number;
  hardPenalty : number
}.

Definition DEFAULT_CONFIG : SpacedRepetitionConfig := {|
  initialInterval := 5;
  maxInterval := 168;
  minInterval := 1;
  easyBonus := 5 # 2;
  hardPenalty := 2
|}.

Inductive Performance := easy | good | hard | again.

Section Service.
Variable config : SpacedRepetitionConfig.

(** The default 0 of [consecutiveCorrect] is left to the caller. *)
Definition calculateNextInterval
    (currentInterval : number) (performance : Performance)
    (consecutiveCorrect : number) : number :=
  let newInterval :=
    match performance with
    | again => minInterval config
    | hard =>
        Math_max (currentInterval / hardPenalty config) (minInterval config)
    | good =>
        if seq consecutiveCorrect 0 then initialInterval config
        else if seq consecutiveCorrect 1 then initialInterval config * 2
        else currentInterval * 2
    | easy =>
        if seq consecutiveCorrect 0 then initialInterval config * 2
        else currentInterval * easyBonus config
    end in
  Math_min (Math_max newInterval (minInterval config)) (maxInterval config).

Definition calculateMasteryLevel
    (correctAnswers totalAttempts consecutiveCorrect currentInterval : number)
    : number :=
  if seq totalAttempts 0 then 0
  else
    let accuracy := correctAnswers / totalAttempts in
    let consistencyBonus := Math_min (consecutiveCorrect * 10) 30 in
    let intervalBonus :=
      Math_min ((currentInterval / maxInterval config) * 20) 20 in
    let masteryLevel := (accuracy * 50) + consistencyBonus + intervalBonus in
    Math_min (Math_round masteryLevel) 100.

(** [isQuestionMastered(progress)] reads three fields of its argument;
    they are passed here one by one (the caller in [processAnswer] builds
    an object holding exactly these three). *)
Definition isQuestionMastered
    (masteryLevel correctAnswers reviewInterval : number) : bool :=
  ge masteryLevel 80 && ge correctAnswers 3 && ge reviewInterval 24.

(** [calculateAverageResponseTime]; [currentAverage] is
    [number | undefined], and [!currentAverage] holds for [undefined]
    and for zero. *)
Definition calculateAverageResponseTime
    (currentAverage : option number) (newTime totalAttempts : number)
    : number :=
  let weight := 3 # 10 in
  match currentAverage with
  | None => newTime
  | Some avg =>
      if negb (truthy avg) || seq totalAttempts 1 then newTime
      else (avg * (1 - weight)) + (newTime * weight)
  end.

End Service.

(** *** Progress records *)

Definition Date := Z.
Bind Scope Z_scope with Date.

Definition msPerHour : Z := 3600000.
Definition msPerDay : Z := 86400000.

(** *** Local time

    [getHours] and [setHours] read and write the wall clock of the host's
    time zone.  The zone is a parameter of the embedding: [LocalTime] and
    [UTC] are the two conversions of the ECMAScript specification, left
    uninterpreted, so that a zone whose offset changes (daylight saving)
    is covered.  [TimeClip] is the identity in the range of dates. *)

Record TimeZone := {
  LocalTime : Date -> Z;
  UTC : Z -> Date
}.

Definition Day (t : Z) : Z := (t / msPerDay)%Z.
Definition HourFromTime (t : Z) : Z := ((t / msPerHour) mod 24)%Z.

(** [d.getHours()]. *)
Definition getHours (tz : TimeZone) (d : Date) : number :=
  inject_Z (HourFromTime (LocalTime tz d)).

(** [d.setHours(hour)], the new time value of [d]: the day and the
    minutes, seconds and milliseconds of the local time are kept, the hour
    is replaced by the integral part of [hour] (which may lie outside
    0..23), and the result is converted back. *)
Definition setHours (tz : TimeZone) (d : Date) (hour : number) : Date :=
  let t := LocalTime tz d in
  UTC tz (Day t * msPerDay + truncate hour * msPerHour + t mod msPerHour)%Z.

Record Progress := {
  id : string;
  userId : string;
  questionId : string;
  topicId : string;
  correctAnswers : number;
  totalAttempts : number;
  consecutiveCorrect : option number;
  lastAnsweredAt : Date;
  nextReviewAt : Date;
  reviewInterval : number;
  masteryLevel : number;
  isCompleted : bool;
  lastPerformance : option Performance;
  averageResponseTime : option number
}.

(** The object [processAnswer] hands to [progressService.updateProgress]
    (a [Partial<Progress>]), together with the key it is written under. *)
Record ProgressUpdate := {
  w_userId : string;
  w_questionId : string;
  w_topicId : string;
  w_correctAnswers : number;
  w_totalAttempts : number;
  w_consecutiveCorrect : number;
  w_lastAnsweredAt : Date;
  w_nextReviewAt : Date;
  w_reviewInterval : number;
  w_masteryLevel : number;
  w_isCompleted : bool;
  w_lastPerformance : Performance;
  w_averageResponseTime : option number
}.

(** [currentProgress?.f || 0] for a required numeric field [f]. *)
Definition field_or (currentProgress : option Progress)
    (f : Progress -> number) (d : number) : number :=
  match currentProgress with
  | None => d
  | Some p => or_else (f p) d
  end.

(** The same for an optional numeric field. *)
Definition opt_field_or (currentProgress : option Progress)
    (f : Progress -> option number) (d : number) : number :=
  match currentProgress with
  | None => d
  | Some p => match f p with None => d | Some x => or_else x d end
  end.

Section Answers.
Variable config : SpacedRepetitionConfig.

(** [processAnswer]: [currentProgress] is what
    [progressService.getProgress] returned ([None] for [null]), [tz] the
    time zone of the host, [now] the clock, [responseTime] the optional
    last argument.  The result is the record passed to
    [progressService.updateProgress]. *)
Definition processAnswer
    (tz : TimeZone) (now : Date) (currentProgress : option Progress)
    (userId questionId topicId : string)
    (performance : Performance) (responseTime : option number)
    : ProgressUpdate :=
  let isCorrect :=
    match performance with again => false | _ => true end in
  let newCorrectAnswers :=
    if isCorrect then field_or currentProgress correctAnswers 0 + 1
    else field_or currentProgress correctAnswers 0 in
  let newTotalAttempts := field_or currentProgress totalAttempts 0 + 1 in
  let consecutiveCorrect' :=
    if isCorrect
    then opt_field_or currentProgress consecutiveCorrect 0 + 1
    else 0 in
  let currentInterval :=
    field_or currentProgress reviewInterval (initialInterval config) in
  let nextInterval :=
    calculateNextInterval config currentInterval performance
      consecutiveCorrect' in
  let nextReviewAt' := setHours tz now (getHours tz now + nextInterval) in
  let masteryLevel' :=
    calculateMasteryLevel config newCorrectAnswers newTotalAttempts
      consecutiveCorrect' nextInterval in
  let previousAverage :=
    match currentProgress with
    | None => None
    | Some p => averageResponseTime p
    end in
  {| w_userId := userId;
     w_questionId := questionId;
     w_topicId := topicId;
     w_correctAnswers := newCorrectAnswers;
     w_totalAttempts := newTotalAttempts;
     w_consecutiveCorrect := consecutiveCorrect';
     w_lastAnsweredAt := now;
     w_nextReviewAt := nextReviewAt';
     w_reviewInterval := nextInterval;
     w_masteryLevel := masteryLevel';
     w_isCompleted :=
       isQuestionMastered masteryLevel' newCorrectAnswers nextInterval;
     w_lastPerformance := performance;
     w_averageResponseTime :=
       match responseTime with
       | Some t =>
           if truthy t
           then Some (calculateAverageResponseTime previousAverage t
                        newTotalAttempts)
           else previousAverage
       | None => previousAverage
       end |}.

End Answers.

(** *** Session statistics *)

Inductive SessionPerformance :=
  excellent | good_session | needs_improvement.

Record SessionStats := {
  accuracy : number;
  questionsPerMinute : number;
  efficiency : number;
  performance : SessionPerformance
}.

Definition generateSessionStats
    (questionsReviewed correctAnswers sessionDuration averageResponseTime
       : number) : SessionStats :=
  let accuracy :=
    if gt questionsReviewed 0
    then (correctAnswers / questionsReviewed) * 100 else 0 in
  let questionsPerMinute :=
    if gt sessionDuration 0
    then questionsReviewed / (sessionDuration / 60) else 0 in
  let idealResponseTime := 15 in
  let efficiency :=
    Math_max 0 (100 - Math_abs (averageResponseTime - idealResponseTime) * 2)
  in
  let performance :=
    if ge accuracy 80 && ge efficiency 70 then excellent
    else if ge accuracy 60 && ge efficiency 50 then good_session
    else needs_improvement in
  {| accuracy := Math_round accuracy;
     questionsPerMinute := Math_round (questionsPerMinute * 10) / 10;
     efficiency := Math_round efficiency;
     performance := performance |}.

(** *** Review selection *)

Inductive SessionType := immediate | spaced | manual.

(** The comparator handed to [sort]; [now] is the clock it reads. *)
Definition compareFn (now : Date) (a b : Progress) : number :=
  let aOverdue := inject_Z (now - nextReviewAt a) in
  let bOverdue := inject_Z (now - nextReviewAt b) in
  if gt aOverdue 0 && le bOverdue 0 then - (1)
  else if gt bOverdue 0 && le aOverdue 0 then 1
  else masteryLevel a - masteryLevel b.

(** [Array.prototype.sort] is a stable sort: an element moves behind
    another one only when the comparator returns a positive number.  It is
    run here as an insertion sort from the right end. *)
Fixpoint sort_insert {A : Type} (compare : A -> A -> number)
    (x : A) (l : list A) : list A :=
  match l with
  | [] => [x]
  | y :: l' =>
      if gt (compare x y) 0 then y :: sort_insert compare x l'
      else x :: l
  end.

Definition Array_sort {A : Type} (compare : A -> A -> number)
    (l : list A) : list A :=
  fold_right (sort_insert compare) [] l.

(** [l.slice(0, limit)] for an integral [limit]: a negative [limit] counts
    from the end of the array. *)
Definition Array_slice0 {A : Type} (l : list A) (limit : Z) : list A :=
  if (limit <? 0)%Z
  then firstn (Z.to_nat (Z.max (Z.of_nat (List.length l) + limit) 0)) l
  else firstn (Z.to_nat limit) l.

(** [getQuestionsForReview]: [dueQuestions] is what
    [progressService.getDueQuestions] returned, [tz] the time zone of the
    host, [now] the clock; the two optional arguments default to
    ['spaced'] and [20]. *)
Definition getQuestionsForReview
    (tz : TimeZone) (now : Date) (dueQuestions : list Progress)
    (sessionType : option SessionType) (limit : option Z)
    : list Progress :=
  let sessionType := match sessionType with Some t => t | None => spaced end in
  let limit := match limit with Some n => n | None => 20%Z end in
  let filteredQuestions :=
    match sessionType with
    | immediate =>
        let oneHourAgo := setHours tz now (getHours tz now - 1) in
        filter (fun q => (oneHourAgo <=? lastAnsweredAt q)%Z) dueQuestions
    | spaced =>
        let twoHoursAgo := setHours tz now (getHours tz now - 2) in
        filter (fun q => (lastAnsweredAt q <=? twoHoursAgo)%Z) dueQuestions
    | manual => dueQuestions
    end in
  Array_slice0 (Array_sort (compareFn now) filteredQuestions) limit.

End SpacedRepetition.

(** ** [GeminiService] *)

Module Gemini.

Local Open Scope string_scope.

(** *** JavaScript values as they come out of [response.json()] and
    [JSON.parse] *)

#[warnings="-register-all"]
Inductive json :=
| JNull
| JBool (b : bool)
| JNumber (n : Q)
| JString (s : string)
| JArray (elements : list json)
| JObject (members : list (string * json)).

(** A value read from a property may be [undefined], which is [None]. *)
Definition value := option json.

(** What a [throw] carries.  The [Error] objects of the service are
    told apart by their message. *)
Inductive exn :=
| ApiKeyNotConfigured                 (* 'Gemini API key not configured' *)
| RequestFailed (status : Z) (statusText : string)
                                      (* 'Gemini API request failed: ...' *)
| InvalidResponse                     (* 'Invalid response from Gemini API' *)
| NoJsonFound                         (* 'No JSON found in response' *)
| InvalidQuestionFormat               (* 'Invalid question format in response' *)
| TypeError                           (* raised by the engine *)
| SyntaxError                         (* raised by a JSON parser *)
| FetchFailed.                        (* [fetch] rejected *)

Definition result (A : Type) : Type := (exn + A)%type.

Definition ret {A : Type} (a : A) : result A := inr a.
Definition throw {A : Type} (e : exn) : result A := inl e.

Definition bind {A B : Type} (m : result A) (k : A -> result B)
    : result B :=
  match m with
  | inl e => inl e
  | inr a => k a
  end.

Notation "x <- m ;; k" := (bind m (fun x => k))
  (at level 61, m at next level, right associativity).

Definition try_catch {A : Type} (body : result A)
    (handler : exn -> result A) : result A :=
  match body with
  | inl e => handler e
  | inr a => inr a
  end.

Definition nonempty (s : string) : bool :=
  match s with
  | EmptyString => false
  | String _ _ => true
  end.

(** [ToBoolean]. *)
Definition truthy (v : value) : bool :=
  match v with
  | None => false
  | Some JNull => false
  | Some (JBool b) => b
  | Some (JNumber n) => JS.truthy n
  | Some (JString s) => nonempty s
  | Some (JArray _) => true
  | Some (JObject _) => true
  end.

Fixpoint assoc (key : string) (members : list (string * json)) : value :=
  match members with
  | [] => None
  | (k, v) :: rest => if String.eqb k key then Some v else assoc key rest
  end.

(** [v.key] for a key that no prototype defines: a [TypeError] on
    [undefined] and [null], the member of an object, [undefined] on
    anything else. *)
Definition get (v : value) (key : string) : result value :=
  match v with
  | None => throw TypeError
  | Some JNull => throw TypeError
  | Some (JObject members) => ret (assoc key members)
  | Some _ => ret None
  end.

(** [v[0]]. *)
Definition get_0 (v : value) : result value :=
  match v with
  | None => throw TypeError
  | Some JNull => throw TypeError
  | Some (JArray elements) => ret (nth_error elements 0)
  | Some (JObject members) => ret (assoc "0" members)
  | Some (JString (String c _)) => ret (Some (JString (String c EmptyString)))
  | Some _ => ret None
  end.

(** Calling a method of [String.prototype] ([match], [split]) on a value:
    a [TypeError] unless the value is a string. *)
Definition string_receiver (v : value) : result string :=
  match v with
  | Some (JString s) => ret s
  | _ => throw TypeError
  end.

(** *** Strings *)

Definition newline : ascii := ascii_of_nat 10.

Definition is_whitespace (c : ascii) : bool :=
  let n := nat_of_ascii c in
  ((9 <=? n) && (n <=? 13))%nat || (n =? 32)%nat.

Definition lower (c : ascii) : ascii :=
  let n := nat_of_ascii c in
  if ((65 <=? n) && (n <=? 90))%nat then ascii_of_nat (n + 32) else c.

Fixpoint toLowerCase (s : string) : string :=
  match s with
  | EmptyString => EmptyString
  | String c rest => String (lower c) (toLowerCase rest)
  end.

Fixpoint includes (s sub : string) : bool :=
  if prefix sub s then true
  else match s with
       | EmptyString => false
       | String _ rest => includes rest sub
       end.

Fixpoint split (sep : ascii) (s : string) : list string :=
  match s with
  | EmptyString => [EmptyString]
  | String c rest =>
      if Ascii.eqb c sep then EmptyString :: split sep rest
      else match split sep rest with
           | [] => [String c EmptyString]
           | first :: others => String c first :: others
           end
  end.

Fixpoint trimStart (s : string) : string :=
  match s with
  | EmptyString => EmptyString
  | String c rest => if is_whitespace c then trimStart rest else s
  end.

Fixpoint trimEnd (s : string) : string :=
  match s with
  | EmptyString => EmptyString
  | String c rest =>
      match trimEnd rest with
      | EmptyString => if is_whitespace c then EmptyString
                       else String c EmptyString
      | kept => String c kept
      end
  end.

Definition trim (s : string) : string := trimEnd (trimStart s).

(** The text from the first opening brace to the last closing brace
    behind it: what [/\{[\s\S]*\}/] matches. *)
Fixpoint through_last_brace (s : string) : option string :=
  match s with
  | EmptyString => None
  | String c rest =>
      match through_last_brace rest with
      | Some kept => Some (String c kept)
      | None => if Ascii.eqb c "}" then Some (String c EmptyString)
                else None
      end
  end.

Fixpoint match_braces (s : string) : option string :=
  match s with
  | EmptyString => None
  | String c rest =>
      if Ascii.eqb c "{" then
        match through_last_brace rest with
        | Some kept => Some (String c kept)
        | None => None
        end
      else match_braces rest
  end.

(** *** Questions *)

Inductive QuestionType := open | multiple_choice | true_false.
Inductive Difficulty := easy | medium | hard.

Record GeminiQuestion := {
  question : json;
  answer : json;
  options : value;
  type : QuestionType;
  difficulty : Difficulty
}.

(** [validateQuestionType]: [type?.toLowerCase()] is [undefined] for
    [undefined] and [null] and throws for a value that is not a string. *)
Definition validateQuestionType (type : value) : result QuestionType :=
  match type with
  | None => ret open
  | Some JNull => ret open
  | Some (JString s) =>
      let normalizedType := toLowerCase s in
      if String.eqb normalizedType "multiple_choice"
         || String.eqb normalizedType "multiple choice"
      then ret multiple_choice
      else if String.eqb normalizedType "true_false"
              || String.eqb normalizedType "true/false"
      then ret true_false
      else ret open
  | Some _ => throw TypeError
  end.

(** [line.split(':').slice(1).join(':').trim()]. *)
Definition after_colon (line : string) : string :=
  trim (String.concat ":" (tl (split ":" line))).

Definition open_question (q a : string) (difficulty : Difficulty)
    : GeminiQuestion :=
  {| question := JString q; answer := JString a; options := None;
     type := open; difficulty := difficulty |}.

(** The loop of [parseQuestionsFromText] on one line; the state is
    [(questions, currentQuestion, currentAnswer)]. *)
Definition scan_line (difficulty : Difficulty)
    (state : list GeminiQuestion * string * string) (line : string)
    : list GeminiQuestion * string * string :=
  let '(questions, currentQuestion, currentAnswer) := state in
  if includes (toLowerCase line) "question" && includes line ":" then
    let questions :=
      if nonempty currentQuestion && nonempty currentAnswer
      then (questions ++ [open_question currentQuestion currentAnswer
                            difficulty])%list
      else questions in
    (questions, after_colon line, EmptyString)
  else if includes (toLowerCase line) "answer" && includes line ":" then
    (questions, currentQuestion, after_colon line)
  else state.

Definition scan_lines (difficulty : Difficulty) (text : string)
    : list GeminiQuestion :=
  let lines := filter (fun line => nonempty (trim line)) (split newline text) in
  let '(questions, currentQuestion, currentAnswer) :=
    fold_left (scan_line difficulty) lines ([], EmptyString, EmptyString) in
  if nonempty currentQuestion && nonempty currentAnswer
  then (questions
        ++ [open_question currentQuestion currentAnswer difficulty])%list
  else questions.

Definition parseQuestionsFromText (text : value) (difficulty : Difficulty)
    : result (list GeminiQuestion) :=
  text <- string_receiver text ;;
  ret (scan_lines difficulty text).

Definition or_empty (v : value) : json :=
  match v with
  | Some j => if truthy v then j else JString EmptyString
  | None => JString EmptyString
  end.

Definition or_undefined (v : value) : value :=
  if truthy v then v else None.

(** The callback of [parsed.questions.map]. *)
Definition to_question (difficulty : Difficulty) (q : json)
    : result GeminiQuestion :=
  question <- get (Some q) "question" ;;
  answer <- get (Some q) "answer" ;;
  options <- get (Some q) "options" ;;
  type <- get (Some q) "type" ;;
  type <- validateQuestionType type ;;
  ret {| question := or_empty question; answer := or_empty answer;
         options := or_undefined options; type := type;
         difficulty := difficulty |}.

Fixpoint map_result {A B : Type} (f : A -> result B) (l : list A)
    : result (list B) :=
  match l with
  | [] => ret []
  | x :: rest =>
      y <- f x ;;
      ys <- map_result f rest ;;
      ret (y :: ys)
  end.

(** A successful HTTP exchange as [generateQuestions] sees it: the [ok]
    flag, the status line, and what [response.json()] resolves to. *)
Record Response := {
  ok : bool;
  status : Z;
  statusText : string;
  json_body : result json
}.

Section Service.
(** [JSON.parse], [None] standing for its [SyntaxError]. *)
Variable JSON_parse : string -> option json.

(** The body of the [try] block of [parseGeneratedQuestions]. *)
Definition parse_json_questions (generatedText : value)
    (difficulty : Difficulty) : result (list GeminiQuestion) :=
  text <- string_receiver generatedText ;;
  match match_braces text with
  | None => throw NoJsonFound
  | Some jsonMatch =>
      match JSON_parse jsonMatch with
      | None => throw SyntaxError
      | Some parsed =>
          questions <- get (Some parsed) "questions" ;;
          match questions with
          | Some (JArray elements) =>
              map_result (to_question difficulty) elements
          | _ => throw InvalidQuestionFormat
          end
      end
  end.

Definition parseGeneratedQuestions (generatedText : value)
    (difficulty : Difficulty) : result (list GeminiQuestion) :=
  try_catch (parse_json_questions generatedText difficulty)
    (fun _ => parseQuestionsFromText generatedText difficulty).

(** [generateQuestions]: [apiKey] is the key the constructor stored,
    [fetched] the outcome of the [fetch] call.  The [catch] block logs the
    error and throws it again. *)
Definition generateQuestions (apiKey : string) (fetched : result Response)
    (difficulty : option Difficulty) : result (list GeminiQuestion) :=
  let difficulty :=
    match difficulty with Some d => d | None => medium end in
  if negb (nonempty apiKey) then throw ApiKeyNotConfigured
  else
    try_catch
      (response <- fetched ;;
       if negb (ok response)
       then throw (RequestFailed (status response) (statusText response))
       else
         data <- json_body response ;;
         candidates <- get (Some data) "candidates" ;;
         if negb (truthy candidates) then throw InvalidResponse
         else
           candidate <- get_0 candidates ;;
           if negb (truthy candidate) then throw InvalidResponse
           else
             content <- get candidate "content" ;;
             if negb (truthy content) then throw InvalidResponse
             else
               parts <- get content "parts" ;;
               part <- get_0 parts ;;
               generatedText <- get part "text" ;;
               parseGeneratedQuestions generatedText difficulty)
      (fun error => throw error).

End Service.

(** The constructor: [GEMINI_API_KEY || '']. *)
Definition GeminiService_apiKey (GEMINI_API_KEY : option string) : string :=
  match GEMINI_API_KEY with
  | Some key => key
  | None => EmptyString
  end.

End Gemini.

(** ** What the specification says, in its own words *)

Module Spec.
Import JS SpacedRepetition.

(** "Result always clamped to [minInterval, maxInterval]", with the
    default bounds 1 and 168. *)
Definition clamp (x : Q) : Q :=
  if Qlt_le_dec x 1 then 1
  else if Qlt_le_dec 168 x then 168
  else x.

(** [m] is [x] rounded to the nearest integer, a tie going up. *)
Definition rounds_to (x : Q) (m : Z) : Prop :=
  inject_Z m - (1 # 2) <= x /\ x < inject_Z m + (1 # 2).

(** Section 4.2: accuracy*50 + consistency bonus + interval bonus. *)
Definition mastery_score (correct totalAttempts consecutiveCorrect
    currentInterval : Q) : Q :=
  (correct / totalAttempts) * 50
  + Qmin (consecutiveCorrect * 10) 30
  + Qmin ((currentInterval / 168) * 20) 20.

(** Section 3: the three counters of a stored record are counts. *)
Definition nonneg_counts (currentProgress : option Progress) : Prop :=
  match currentProgress with
  | None => True
  | Some p =>
      0 <= correctAnswers p /\ 0 <= totalAttempts p /\
      match consecutiveCorrect p with
      | Some c => 0 <= c
      | None => True
      end
  end.

(** Section 4.2, [isMastered]. *)
Definition mastered (mastery correct interval : Q) : Prop :=
  80 <= mastery /\ 3 <= correct /\ 24 <= interval.

(** The average stored in the loaded record, if any. *)
Definition prior_average (currentProgress : option Progress)
    : option Q :=
  match currentProgress with
  | None => None
  | Some p => averageResponseTime p
  end.

(** Section 4.3: "avg' = avg*0.7 + new*0.3; if no prior average,
    avg' = new". *)
Definition weighted_average (prior : option Q) (t : Q)
    (written : option Q) : Prop :=
  exists r, written = Some r /\
    match prior with
    | Some avg => r == avg * (7 # 10) + t * (3 # 10)
    | None => r == t
    end.

(** Section 4.5: "excellent if accuracy>=80 and efficiency>=70; good if
    accuracy>=60 and efficiency>=50; else needs_improvement", on two
    figures. *)
Definition tier (acc eff : Q) (t : SessionPerformance) : Prop :=
  match t with
  | excellent => 80 <= acc /\ 70 <= eff
  | good_session => ~ (80 <= acc /\ 70 <= eff) /\ 60 <= acc /\ 50 <= eff
  | needs_improvement =>
      ~ (80 <= acc /\ 70 <= eff) /\ ~ (60 <= acc /\ 50 <= eff)
  end.



(** The instant at which the local clock reads [n] hours more than it
    reads at [now] ([n] may be negative). *)
Definition clock_hours_later (tz : TimeZone) (now : Date) (n : Z) : Date :=
  UTC tz (LocalTime tz now + n * msPerHour)%Z.

(** The filter with its two bounds taken on the local clock: one and two
    hours back on the clock, which is one and two hours ago when the
    offset of the zone is the same there. *)
Definition keeps_on_the_clock (tz : TimeZone) (now : Date)
    (t : SessionType) (q : Progress) : Prop :=
  match t with
  | immediate => (clock_hours_later tz now (-1) <= lastAnsweredAt q)%Z
  | spaced => (lastAnsweredAt q <= clock_hours_later tz now (-2))%Z
  | manual => True
  end.

(** A boolean deciding [keeps_on_the_clock]. *)
Definition kept (tz : TimeZone) (now : Date) (t : SessionType)
    (q : Progress) : bool :=
  match t with
  | immediate => (clock_hours_later tz now (-1) <=? lastAnsweredAt q)%Z
  | spaced => (lastAnsweredAt q <=? clock_hours_later tz now (-2))%Z
  | manual => true
  end.

(** The offset is kept over [n] hours from [now]: the zone has the same
    offset from UTC at that instant as at [now], and converts the local
    time of that instant back to it (which fails for the hour that a
    clock set back repeats). *)
Definition offset_kept (tz : TimeZone) (now : Date) (n : Z) : Prop :=
  let other := (now + n * msPerHour)%Z in
  (LocalTime tz other - other = LocalTime tz now - now)%Z /\
  UTC tz (LocalTime tz other) = other.

(** A zone that keeps one offset from UTC ([o] milliseconds) at all
    times. *)
Definition fixed_offset (tz : TimeZone) (o : Z) : Prop :=
  (forall t, LocalTime tz t = (t + o)%Z) /\
  (forall l, UTC tz l = (l - o)%Z).

(** "overdue records (now > nextReviewAt)". *)
Definition overdue (now : Date) (q : Progress) : bool :=
  (nextReviewAt q <? now)%Z.

(** "overdue records sort before non-overdue; within same overdue-ness,
    ascending by masteryLevel". *)
Definition before (now : Date) (a b : Progress) : Prop :=
  (overdue now a = true /\ overdue now b = false) \/
  (overdue now a = overdue now b /\ masteryLevel a <= masteryLevel b).

End Spec.

(** ** JavaScript numbers as doubles *)

Module JS64.
Local Open Scope float_scope.

Definition number := float.

(** The exact value of a number: none for NaN and the infinities. *)
Definition exact (x : number) : option Q :=
  match Prim2SF x with
  | S754_zero _ => Some 0%Q
  | S754_finite s m e =>
      Some ((if s then - (1) else 1) * (inject_Z (Zpos m) * 2 ^ e))%Q
  | S754_infinity _ | S754_nan => None
  end.

(** The number that holds the integer [n]; the zero of the given sign
    when [n] is 0. *)
Definition of_integer (negative : bool) (n : Z) : number :=
  if (n =? 0)%Z then (if negative then -0 else 0)
  else SF2Prim (binary_normalize prec emax n 0 false).

(** [Math.round]: NaN, the infinities and the zeros are returned as they
    are; otherwise the nearest integer, a tie going up, and the zero of
    the sign of [x] when that integer is 0. *)
Definition Math_round (x : number) : number :=
  match exact x with
  | Some q => of_integer (get_sign x) (Qfloor (q + (1 # 2)))
  | None => x
  end.

(** [Math.max] and [Math.min]: NaN when an argument is NaN; +0 counts
    as larger than -0. *)
Definition Math_max (a b : number) : number :=
  if is_nan a || is_nan b then nan
  else if a <? b then b
  else if b <? a then a
  else if get_sign a then b else a.

Definition Math_min (a b : number) : number :=
  if is_nan a || is_nan b then nan
  else if a <? b then a
  else if b <? a then b
  else if get_sign a then a else b.

Definition Math_abs (x : number) : number := abs x.

(** [a === b], [a > b] and [a >= b]: all false when an argument is
    NaN. *)
Definition seq (a b : number) : bool := a =? b.
Definition gt (a b : number) : bool := b <? a.
Definition ge (a b : number) : bool := b <=? a.

End JS64.


(** ** [calculateMasteryLevel] and [generateSessionStats] on doubles *)

Module SpacedRepetition64.
Import JS64.
Import SpacedRepetition (SessionPerformance, excellent, good_session,
  needs_improvement).
Local Open Scope float_scope.

Record SpacedRepetitionConfig := {
  initialInterval : number;
  maxInterval : number;
  minInterval : number;
  easyBonus : number;
  hardPenalty : number
}.

Definition DEFAULT_CONFIG : SpacedRepetitionConfig := {|
  initialInterval := 5;
  maxInterval := 168;
  minInterval := 1;
  easyBonus := 2.5;
  hardPenalty := 2
|}.

Section Service.
Variable config : SpacedRepetitionConfig.

Definition calculateMasteryLevel
    (correctAnswers totalAttempts consecutiveCorrect currentInterval : number)
    : number :=
  if seq totalAttempts 0 then 0
  else
    let accuracy := correctAnswers / totalAttempts in
    let consistencyBonus := Math_min (consecutiveCorrect * 10) 30 in
    let intervalBonus :=
      Math_min ((currentInterval / maxInterval config) * 20) 20 in
    let masteryLevel := (accuracy * 50) + consistencyBonus + intervalBonus in
    Math_min (Math_round masteryLevel) 100.

End Service.

Record SessionStats := {
  accuracy : number;
  questionsPerMinute : number;
  efficiency : number;
  performance : SessionPerformance
}.

Definition generateSessionStats
    (questionsReviewed correctAnswers sessionDuration averageResponseTime
       : number) : SessionStats :=
  let accuracy :=
    if gt questionsReviewed 0
    then (correctAnswers / questionsReviewed) * 100 else 0 in
  let questionsPerMinute :=
    if gt sessionDuration 0
    then questionsReviewed / (sessionDuration / 60) else 0 in
  let idealResponseTime := 15 in
  let efficiency :=
    Math_max 0 (100 - Math_abs (averageResponseTime - idealResponseTime) * 2)
  in
  let performance :=
    if ge accuracy 80 && ge efficiency 70 then excellent
    else if ge accuracy 60 && ge efficiency 50 then good_session
    else needs_improvement in
  {| accuracy := Math_round accuracy;
     questionsPerMinute := Math_round (questionsPerMinute * 10) / 10;
     efficiency := Math_round efficiency;
     performance := performance |}.

End SpacedRepetition64.

(** ** What the specification says about the figures, on doubles *)

Module Spec64.
Import JS64 SpacedRepetition64.
Import SpacedRepetition (SessionPerformance, excellent, good_session,
  needs_improvement).
Local Open Scope float_scope.

(** [y] is [x] rounded to the nearest integer, a tie going up; NaN and
    the infinities are left as they are, and a result of 0 keeps the sign
    of [x]. *)
Definition rounded (x y : number) : Prop :=
  match exact x with
  | Some q =>
      exists m : Z, Spec.rounds_to q m /\ y = of_integer (get_sign x) m
  | None => y = x
  end.

(** Section 4.2, every operation being the one of doubles. *)
Definition mastery_score (correct totalAttempts consecutiveCorrect
    currentInterval : number) : number :=
  (correct / totalAttempts) * 50
  + Math_min (consecutiveCorrect * 10) 30
  + Math_min ((currentInterval / 168) * 20) 20.

(** [x >= bound]. *)
Definition at_least (bound x : number) : Prop := (bound <=? x) = true.

(** Section 4.5, the tier rule on two figures. *)
Definition tier (acc eff : number) (t : SessionPerformance) : Prop :=
  match t with
  | excellent => at_least 80 acc /\ at_least 70 eff
  | good_session =>
      ~ (at_least 80 acc /\ at_least 70 eff) /\
      at_least 60 acc /\ at_least 50 eff
  | needs_improvement =>
      ~ (at_least 80 acc /\ at_least 70 eff) /\
      ~ (at_least 60 acc /\ at_least 50 eff)
  end.

(** The tier rule read on the returned (rounded) figures. *)
Definition tier_of_returned (s : SessionStats) : SessionPerformance :=
  if ge (accuracy s) 80 && ge (efficiency s) 70 then excellent
  else if ge (accuracy s) 60 && ge (efficiency s) 50 then good_session
  else needs_improvement.

End Spec64.

(** ** What the specification says about AI generation *)

Module GeminiSpec.
Import Gemini.

Local Open Scope string_scope.

(** The first element of an array, or the member [0] of an object. *)
Definition first (v : json) : value :=
  match v with
  | JArray (x :: _) => Some x
  | JObject members => assoc "0" members
  | _ => None
  end.

(** The envelope has candidates: its first candidate is an object with a
    truthy [content]. *)
Definition has_candidates (data : json) : Prop :=
  exists members candidates candidate content,
    data = JObject members /\
    assoc "candidates" members = Some candidates /\
    first candidates = Some (JObject candidate) /\
    assoc "content" candidate = Some content /\
    truthy (Some content) = true.

(** The envelope carries the generated text [s]: the content of its first
    candidate is an object whose first part is an object with the string
    [s] as [text]. *)
Definition envelope_text (data : json) (s : string) : Prop :=
  exists members candidates candidate content parts part,
    data = JObject members /\
    assoc "candidates" members = Some candidates /\
    first candidates = Some (JObject candidate) /\
    assoc "content" candidate = Some (JObject content) /\
    assoc "parts" content = Some parts /\
    first parts = Some (JObject part) /\
    assoc "text" part = Some (JString s).

(** Section 7 as the claim reads it: generation fails exactly when no key
    is configured, or the HTTP response is not a success, or its envelope
    lacks candidates. *)
Definition fails_exactly_when (apiKey : string) (response : Response)
    (data : json) (outcome : result (list GeminiQuestion)) : Prop :=
  (exists e, outcome = inl e) <->
  (apiKey = EmptyString \/ ok response = false \/ ~ has_candidates data).

(** A question of the fallback parser: open, of the requested difficulty,
    with a non-empty question and a non-empty answer. *)
Definition partial_question (d : Difficulty) (g : GeminiQuestion) : Prop :=
  exists q a,
    g = open_question q a d /\ nonempty q = true /\ nonempty a = true.

End GeminiSpec.

(** ** Records used in the worked examples *)

Module Examples.
Import JS SpacedRepetition.

(** A stored record: two correct answers, [attempts] attempts, an interval
    of [interval] hours, and an average response time of [avg] seconds
    when given. *)
Definition stored (attempts interval : number) (avg : option number)
    : Progress :=
  {| id := "u_q"%string; userId := "u"%string; questionId := "q"%string;
     topicId := "t"%string;
     correctAnswers := 2; totalAttempts := attempts;
     consecutiveCorrect := Some 2;
     lastAnsweredAt := 0%Z; nextReviewAt := 18000000%Z;
     reviewInterval := interval; masteryLevel := 56;
     isCompleted := false; lastPerformance := Some good;
     averageResponseTime := avg |}.

(** A host whose local time is UTC. *)
Definition utc : TimeZone :=
  {| LocalTime := fun t => t; UTC := fun l => l |}.


(** The average written when the record [cur] is loaded and the sample
    [t] is supplied. *)
Definition written_average (cur : option Progress) (perf : Performance)
    (t : number) : option number :=
  w_averageResponseTime
    (processAnswer DEFAULT_CONFIG utc 0%Z cur "u"%string "q"%string
       "t"%string perf (Some t)).

(** A record last answered at [answered], due at [due], of mastery [m]. *)
Definition item (answered due : Date) (m : number) : Progress :=
  {| id := "u_q"%string; userId := "u"%string; questionId := "q"%string;
     topicId := "t"%string;
     correctAnswers := 1; totalAttempts := 2;
     consecutiveCorrect := Some 1;
     lastAnsweredAt := answered; nextReviewAt := due;
     reviewInterval := 5; masteryLevel := m;
     isCompleted := false; lastPerformance := Some good;
     averageResponseTime := None |}.

(** A parser that rejects every text. *)
Definition reject_all : string -> option Gemini.json := fun _ => None.

(** An envelope whose first candidate has a content without parts, as
    the API returns when the generation was cut short. *)
Definition envelope_without_parts : Gemini.json :=
  Gemini.JObject
    [("candidates"%string,
      Gemini.JArray
        [Gemini.JObject
           [("content"%string,
             Gemini.JObject
               [("role"%string, Gemini.JString "model"%string)]);
            ("finishReason"%string, Gemini.JString "MAX_TOKENS"%string)]])].

(** An envelope carrying the text [s]. *)
Definition envelope_with (s : string) : Gemini.json :=
  Gemini.JObject
    [("candidates"%string,
      Gemini.JArray
        [Gemini.JObject
           [("content"%string,
             Gemini.JObject
               [("parts"%string,
                 Gemini.JArray
                   [Gemini.JObject [("text"%string, Gemini.JString s)]])])]])].

Definition success (data : Gemini.json) : Gemini.Response :=
  {| Gemini.ok := true; Gemini.status := 200%Z;
     Gemini.statusText := "OK"%string;
     Gemini.json_body := inr data |}.

Definition plain_text : string :=
  ("Question 1: What is recall?" ++ String Gemini.newline EmptyString
   ++ "Answer: Retrieval from memory")%string.

End Examples.

(** ** The review session screen: the counters of a session *)

Module ReviewSession.
Import JS SpacedRepetition.

(** The [sessionStats] state of the screen. *)
Record Counters := {
  questionsReviewed : number;
  correctAnswers : number;
  totalTime : number
}.

Definition initialCounters : Counters :=
  {| questionsReviewed := 0; correctAnswers := 0; totalTime := 0 |}.

(** The state update of [handleAnswer]. *)
Definition handleAnswer (prev : Counters) (performance : Performance)
    (responseTime : number) : Counters :=
  let isCorrect := match performance with again => false | _ => true end in
  {| questionsReviewed := questionsReviewed prev + 1;
     correctAnswers := correctAnswers prev + (if isCorrect then 1 else 0);
     totalTime := totalTime prev + responseTime |}.

(** The statistics [finishSession] computes from the counters it sees. *)
Definition finishSession (sessionStats : Counters)
    (sessionDuration : number) : SessionStats :=
  let averageResponseTime :=
    totalTime sessionStats / questionsReviewed sessionStats in
  generateSessionStats (questionsReviewed sessionStats)
    (correctAnswers sessionStats) sessionDuration averageResponseTime.

(** The counters after a sequence of answers. *)
Definition answer_all (answers : list (Performance * number)) : Counters :=
  fold_left (fun prev a => handleAnswer prev (fst a) (snd a)) answers
    initialCounters.

End ReviewSession.

(** ** [progressService.createOrUpdateProgress] *)

Module SimpleProgress.
Import JS SpacedRepetition.

(** The fields handed to [updateDoc]. *)
Record Written := {
  correctAnswers' : number;
  totalAttempts' : number;
  lastAnsweredAt' : Date;
  nextReviewAt' : Date;
  reviewInterval' : number;
  masteryLevel' : number;
  isCompleted' : bool
}.

(** [docSnap] is the stored record, [None] when [docSnap.exists()] is
    false; [tz] is the time zone of the host and [now] the clock. *)
Definition createOrUpdateProgress (tz : TimeZone) (now : Date)
    (docSnap : option Progress) (isCorrect : bool) : Written :=
  match docSnap with
  | Some currentProgress =>
      let newCorrectAnswers :=
        if isCorrect then correctAnswers currentProgress + 1
        else correctAnswers currentProgress in
      let newTotalAttempts := totalAttempts currentProgress + 1 in
      let accuracy := newCorrectAnswers / newTotalAttempts in
      let newInterval :=
        if isCorrect
        then Math_min (reviewInterval currentProgress * 2) 168
        else Math_max (reviewInterval currentProgress / 2) 1 in
      {| correctAnswers' := newCorrectAnswers;
         totalAttempts' := newTotalAttempts;
         lastAnsweredAt' := now;
         nextReviewAt' := setHours tz now (getHours tz now + newInterval);
         reviewInterval' := newInterval;
         masteryLevel' := Math_round (accuracy * 100);
         isCompleted' := ge accuracy (8 # 10) && ge newTotalAttempts 3 |}
  | None =>
      {| correctAnswers' := if isCorrect then 1 else 0;
         totalAttempts' := 1;
         lastAnsweredAt' := now;
         nextReviewAt' := setHours tz now (getHours tz now + 5);
         reviewInterval' := 5;
         masteryLevel' := if isCorrect then 100 else 0;
         isCompleted' := false |}
  end.

End SimpleProgress.

(** ** [NotificationService.scheduleReviewReminders] *)

Module Notifications.
Import JS SpacedRepetition.

(** A [Map] from hour keys to counts, in insertion order. *)
Definition HourMap := list (Z * number).

Fixpoint map_get (key : Z) (m : HourMap) : option number :=
  match m with
  | [] => None
  | (k, v) :: rest => if (k =? key)%Z then Some v else map_get key rest
  end.

Fixpoint map_set (key : Z) (value : number) (m : HourMap) : HourMap :=
  match m with
  | [] => [(key, value)]
  | (k, v) :: rest =>
      if (k =? key)%Z then (k, value) :: rest
      else (k, v) :: map_set key value rest
  end.

Record NotificationSchedule := {
  hour : Z;                 (* the id is 'review-' followed by the key *)
  questionCount : number;
  plural : bool;            (* whether the body says 'questions' *)
  scheduledTime : Date
}.

Section LocalTime.
(** Local time is UTC plus [offset] milliseconds.  The key
    year-month-date-hours of a date names its local hour, which is
    numbered here from the epoch; [new Date(year, month, date, hour, 0, 0)]
    is the first millisecond of that hour. *)
Variable offset : Z.

Definition hourKey (reviewTime : Date) : Z :=
  ((reviewTime + offset) / msPerHour)%Z.

Definition hourStart (key : Z) : Date :=
  (key * msPerHour - offset)%Z.

Definition count_question (questionsByHour : HourMap) (question : Progress)
    : HourMap :=
  let key := hourKey (nextReviewAt question) in
  let previous :=
    match map_get key questionsByHour with
    | Some n => or_else n 0
    | None => 0
    end in
  map_set key (previous + 1) questionsByHour.

Definition group_by_hour (dueQuestions : list Progress) : HourMap :=
  fold_left count_question dueQuestions [].

(** The notifications handed to [scheduleNotification]; [now] is the
    clock read in the loop. *)
Definition scheduleReviewReminders (now : Date)
    (dueQuestions : list Progress) : list NotificationSchedule :=
  match dueQuestions with
  | [] => []
  | _ =>
      flat_map
        (fun entry : Z * number =>
           let '(key, count) := entry in
           let scheduledTime := hourStart key in
           if (now <? scheduledTime)%Z
           then [{| hour := key; questionCount := count;
                    plural := gt count 1;
                    scheduledTime := scheduledTime |}]
           else [])
        (group_by_hour dueQuestions)
  end.

End LocalTime.

End Notifications.

(** The number of questions counted in a map of hours. *)
Module NotificationSpec.
Import JS Notifications.

Fixpoint total_count (m : HourMap) : number :=
  match m with
  | [] => 0
  | (_, count) :: rest => count + total_count rest
  end.

End NotificationSpec.

(** Counting in the fallback parser: the lines that open a question, and
    whether a question text is pending. *)
Module ScannerSpec.
Import Gemini.

Definition is_question (line : string) : bool :=
  includes (toLowerCase line) "question"%string && includes line ":"%string.

Definition pending (s : string) : nat := if nonempty s then 1 else 0.

End ScannerSpec.

(** ** Parsers and texts used in the further examples *)

Module MoreExamples.

(** A parser that returns [v] for every text. *)
Definition parse_as (v : Gemini.json) : string -> option Gemini.json :=
  fun _ => Some v.

(** An answer of the model with one well-formed question and one null. *)
Definition questions_with_null : Gemini.json :=
  Gemini.JObject
    [("questions"%string,
      Gemini.JArray
        [Gemini.JObject
           [("question"%string, Gemini.JString "What is recall?"%string);
            ("answer"%string, Gemini.JString "Retrieval"%string)];
         Gemini.JNull])].

Definition braced_text : string := "Here you go: {...} Done."%string.

End MoreExamples.

(** ** Facts about the [Math] functions *)

Module JSFacts.
Import JS.

Lemma seq_true (a b : number) : seq a b = true <-> a == b.
Proof. apply Qeq_bool_iff. Qed.

Lemma seq_false (a b : number) : seq a b = false <-> ~ a == b.
Proof.
  unfold seq. split; intro H.
  - intro E. apply Qeq_bool_iff in E. congruence.
  - destruct (Qeq_bool a b) eqn:E; [| reflexivity].
    apply Qeq_bool_iff in E. contradiction.
Qed.

Lemma ge_true (a b : number) : ge a b = true <-> b <= a.
Proof. apply Qle_bool_iff. Qed.

Lemma le_true (a b : number) : le a b = true <-> a <= b.
Proof. apply Qle_bool_iff. Qed.

Lemma gt_true (a b : number) : gt a b = true <-> b < a.
Proof.
  unfold gt. rewrite negb_true_iff. split; intro H.
  - apply Qnot_le_lt. intro L. apply Qle_bool_iff in L. congruence.
  - destruct (Qle_bool a b) eqn:E; [| reflexivity].
    apply Qle_bool_iff in E. apply Qle_not_lt in E. contradiction.
Qed.

Lemma gt_false (a b : number) : gt a b = false <-> a <= b.
Proof.
  unfold gt. rewrite negb_false_iff. apply Qle_bool_iff.
Qed.

Lemma truthy_true (x : number) : truthy x = true <-> ~ x == 0.
Proof. unfold truthy. rewrite negb_true_iff. apply seq_false. Qed.

Lemma truthy_false (x : number) : truthy x = false <-> x == 0.
Proof. unfold truthy. rewrite negb_false_iff. apply seq_true. Qed.

Lemma or_else_zero (x : number) : or_else x 0 == x.
Proof.
  unfold or_else. destruct (truthy x) eqn:E; [reflexivity |].
  apply truthy_false in E. symmetry. exact E.
Qed.

Lemma Math_round_spec (x : number) :
  exists m : Z, Math_round x = inject_Z m /\ Spec.rounds_to x m.
Proof.
  exists (Qfloor (x + (1 # 2))). split; [reflexivity |].
  pose proof (Qfloor_le (x + (1 # 2))) as Hlo.
  pose proof (Qlt_floor (x + (1 # 2))) as Hhi.
  rewrite inject_Z_plus in Hhi. change (inject_Z 1) with 1 in Hhi.
  unfold Spec.rounds_to.
  set (f := inject_Z (Qfloor (x + (1 # 2)))) in *. clearbody f.
  split; lra.
Qed.

Lemma rounds_to_unique (x : Q) (m n : Z) :
  Spec.rounds_to x m -> Spec.rounds_to x n -> m = n.
Proof.
  unfold Spec.rounds_to. intros [Hm1 Hm2] [Hn1 Hn2].
  assert (inject_Z m < inject_Z n + 1) as A by lra.
  assert (inject_Z n < inject_Z m + 1) as B by lra.
  change 1 with (inject_Z 1) in A, B.
  rewrite <- inject_Z_plus in A, B.
  rewrite <- Zlt_Qlt in A, B. lia.
Qed.

Lemma Math_round_nonneg (x : number) : - (1 # 2) <= x -> 0 <= Math_round x.
Proof.
  intro H. unfold Math_round.
  change 0 with (inject_Z 0). rewrite <- Zle_Qle.
  change 0%Z with (Qfloor 0). apply Qfloor_resp_le. lra.
Qed.

End JSFacts.

(** ** The local clock *)

Module TimeFacts.
Import JS SpacedRepetition Spec.

Lemma Qfloor_unique (x : Q) (n : Z) :
  inject_Z n <= x -> x < inject_Z n + 1 -> Qfloor x = n.
Proof.
  intros Hlo Hhi.
  pose proof (Qfloor_le x) as A. pose proof (Qlt_floor x) as B.
  rewrite inject_Z_plus in B. change (inject_Z 1) with 1 in B.
  assert (inject_Z n < inject_Z (Qfloor x) + 1) as C by lra.
  assert (inject_Z (Qfloor x) < inject_Z n + 1) as D by lra.
  change 1 with (inject_Z 1) in C, D.
  rewrite <- inject_Z_plus in C, D. rewrite <- Zlt_Qlt in C, D. lia.
Qed.

Lemma Qfloor_plus_Z (z : Z) (x : Q) :
  Qfloor (inject_Z z + x) = (z + Qfloor x)%Z.
Proof.
  apply Qfloor_unique.
  - rewrite inject_Z_plus. pose proof (Qfloor_le x). lra.
  - rewrite inject_Z_plus. pose proof (Qlt_floor x) as B.
    rewrite inject_Z_plus in B. change (inject_Z 1) with 1 in B. lra.
Qed.

Lemma truncate_nonneg (x : number) : 0 <= x -> truncate x = Qfloor x.
Proof.
  intro H. unfold truncate. apply Qle_bool_iff in H. rewrite H. reflexivity.
Qed.

Lemma truncate_Z (x : number) (n : Z) : x == inject_Z n -> truncate x = n.
Proof.
  intro E. unfold truncate.
  destruct (Qle_bool 0 x).
  - rewrite (Qfloor_comp _ _ E). apply Qfloor_Z.
  - rewrite (Qceiling_comp _ _ E). apply Qceiling_Z.
Qed.

Lemma HourFromTime_range (t : Z) : (0 <= HourFromTime t < 24)%Z.
Proof. unfold HourFromTime. apply Z.mod_pos_bound. lia. Qed.

Lemma local_split (t : Z) :
  (Day t * msPerDay + HourFromTime t * msPerHour + t mod msPerHour)%Z = t.
Proof.
  unfold Day, HourFromTime, msPerDay, msPerHour.
  pose proof (Z.div_mod t 3600000 ltac:(lia)) as A.
  pose proof (Z.div_mod (t / 3600000) 24 ltac:(lia)) as B.
  assert (t / 86400000 = t / 3600000 / 24)%Z as C.
  { rewrite Z.div_div by lia. reflexivity. }
  rewrite C. lia.
Qed.

Lemma setHours_shift (tz : TimeZone) (d : Date) (hour : number) (n : Z) :
  truncate hour = (HourFromTime (LocalTime tz d) + n)%Z ->
  setHours tz d hour = clock_hours_later tz d n.
Proof.
  intro E. unfold setHours, clock_hours_later. cbv zeta. rewrite E.
  f_equal. pose proof (local_split (LocalTime tz d)). lia.
Qed.

Lemma setHours_later (tz : TimeZone) (d : Date) (x : number) :
  0 <= x ->
  setHours tz d (getHours tz d + x) = clock_hours_later tz d (Qfloor x).
Proof.
  intro H. apply setHours_shift. unfold getHours.
  pose proof (HourFromTime_range (LocalTime tz d)) as R.
  rewrite truncate_nonneg.
  - apply Qfloor_plus_Z.
  - assert (0 <= inject_Z (HourFromTime (LocalTime tz d))) as A.
    { change 0 with (inject_Z 0). rewrite <- Zle_Qle. lia. }
    set (h := inject_Z _) in *. clearbody h. lra.
Qed.

Lemma setHours_earlier (tz : TimeZone) (d : Date) (n : Z) :
  setHours tz d (getHours tz d - inject_Z n) = clock_hours_later tz d (- n).
Proof.
  apply setHours_shift. unfold getHours. apply truncate_Z.
  rewrite inject_Z_plus, inject_Z_opp. reflexivity.
Qed.

(** The two bounds of [getQuestionsForReview]. *)
Lemma oneHourAgo_on_the_clock (tz : TimeZone) (now : Date) :
  setHours tz now (getHours tz now - 1) = clock_hours_later tz now (-1).
Proof. exact (setHours_earlier tz now 1). Qed.

Lemma twoHoursAgo_on_the_clock (tz : TimeZone) (now : Date) :
  setHours tz now (getHours tz now - 2) = clock_hours_later tz now (-2).
Proof. exact (setHours_earlier tz now 2). Qed.

Lemma offset_kept_later (tz : TimeZone) (d : Date) (n : Z) :
  offset_kept tz d n -> clock_hours_later tz d n = (d + n * msPerHour)%Z.
Proof.
  intros [O U]. unfold clock_hours_later.
  replace (LocalTime tz d + n * msPerHour)%Z
    with (LocalTime tz (d + n * msPerHour)%Z) by lia.
  exact U.
Qed.

Lemma fixed_offset_kept (tz : TimeZone) (o : Z) (d : Date) (n : Z) :
  fixed_offset tz o -> offset_kept tz d n.
Proof.
  intros [L U]. split; cbv zeta; rewrite !L; [| rewrite U]; lia.
Qed.

Lemma offset_kept_utc (d : Date) (n : Z) : offset_kept Examples.utc d n.
Proof. split; cbn; lia. Qed.

End TimeFacts.

(** Replace every [Qmax] and [Qmin] by a fresh variable constrained by its
    specification, so that linear arithmetic can finish. *)
Ltac minmax_vars :=
  unfold JS.Math_max, JS.Math_min in *;
  repeat match goal with
  | |- context [Qmax ?a ?b] =>
      let m := fresh "mx" in
      pose proof (Q.max_spec a b); set (m := Qmax a b) in *; clearbody m
  | |- context [Qmin ?a ?b] =>
      let m := fresh "mn" in
      pose proof (Q.min_spec a b); set (m := Qmin a b) in *; clearbody m
  | _ : context [Qmax ?a ?b] |- _ =>
      let m := fresh "mx" in
      pose proof (Q.max_spec a b); set (m := Qmax a b) in *; clearbody m
  | _ : context [Qmin ?a ?b] |- _ =>
      let m := fresh "mn" in
      pose proof (Q.min_spec a b); set (m := Qmin a b) in *; clearbody m
  end.

(** ** The interval calculator *)

Module IntervalFacts.
Import JS JSFacts SpacedRepetition.

Lemma clamp_min_max (x : Q) : Qmin (Qmax x 1) 168 == Spec.clamp x.
Proof.
  unfold Spec.clamp.
  destruct (Qlt_le_dec x 1); [| destruct (Qlt_le_dec 168 x)];
    minmax_vars; lra.
Qed.

Lemma clamp_bounds (x : Q) : 1 <= Spec.clamp x <= 168.
Proof.
  unfold Spec.clamp.
  destruct (Qlt_le_dec x 1); [| destruct (Qlt_le_dec 168 x)]; lra.
Qed.

Lemma nextInterval_bounds (i k : number) (p : Performance) :
  1 <= calculateNextInterval DEFAULT_CONFIG i p k <= 168.
Proof.
  unfold calculateNextInterval. cbn [minInterval maxInterval DEFAULT_CONFIG].
  generalize (match p with
     | easy =>
         if seq k 0 then initialInterval DEFAULT_CONFIG * 2
         else i * easyBonus DEFAULT_CONFIG
     | good =>
         if seq k 0 then initialInterval DEFAULT_CONFIG
         else if seq k 1 then initialInterval DEFAULT_CONFIG * 2 else i * 2
     | hard => Math_max (i / hardPenalty DEFAULT_CONFIG) 1
     | again => 1
     end).
  intro x. minmax_vars. lra.
Qed.

Ltac unfold_interval :=
  unfold calculateNextInterval;
  cbn [minInterval maxInterval initialInterval easyBonus hardPenalty
       DEFAULT_CONFIG].

(** C1. With the default configuration [calculateNextInterval] follows
    the case analysis of the specification: 'again' gives 1 (for every
    interval, so in particular for those in [1,168]); 'hard' gives
    max(currentInterval/2, 1); 'good' gives 5, 10 or currentInterval*2 as
    consecutiveCorrect is 0, 1 or anything else; 'easy' gives 10 when
    consecutiveCorrect is 0 and currentInterval*2.5 otherwise; every result
    is clamped to [1,168]. *)
Theorem calculateNextInterval_cases (i k : number) :
  calculateNextInterval DEFAULT_CONFIG i again k == 1 /\
  calculateNextInterval DEFAULT_CONFIG i hard k
    == Spec.clamp (Qmax (i / 2) 1) /\
  (k == 0 -> calculateNextInterval DEFAULT_CONFIG i good k == 5) /\
  (k == 1 -> calculateNextInterval DEFAULT_CONFIG i good k == 10) /\
  (~ k == 0 -> ~ k == 1 ->
   calculateNextInterval DEFAULT_CONFIG i good k == Spec.clamp (i * 2)) /\
  (k == 0 -> calculateNextInterval DEFAULT_CONFIG i easy k == 10) /\
  (~ k == 0 ->
   calculateNextInterval DEFAULT_CONFIG i easy k
     == Spec.clamp (i * (5 # 2))) /\
  (forall p, 1 <= calculateNextInterval DEFAULT_CONFIG i p k <= 168).
Proof.
  refine (conj _ (conj _ (conj _ (conj _ (conj _ (conj _ (conj _ _))))))).
  - reflexivity.
  - unfold_interval. apply clamp_min_max.
  - intro H. apply seq_true in H. unfold_interval. rewrite H. reflexivity.
  - intro H. assert (seq k 0 = false) as H0.
    { apply seq_false. rewrite H. discriminate. }
    apply seq_true in H. unfold_interval. rewrite H0, H. reflexivity.
  - intros H0 H1. apply seq_false in H0, H1. unfold_interval.
    rewrite H0, H1. apply clamp_min_max.
  - intro H. apply seq_true in H. unfold_interval. rewrite H. reflexivity.
  - intro H. apply seq_false in H. unfold_interval. rewrite H.
    apply clamp_min_max.
  - intro p. apply nextInterval_bounds.
Qed.

Lemma calculateNextInterval_cases_witness :
  calculateNextInterval DEFAULT_CONFIG 7 good 1 == 10 /\
  calculateNextInterval DEFAULT_CONFIG 7 good 3 == 14 /\
  calculateNextInterval DEFAULT_CONFIG 7 easy 0 == 10.
Proof.
  split; [| split].
  - apply (proj1 (proj2 (proj2 (proj2 (calculateNextInterval_cases 7 1))))).
    reflexivity.
  - assert (Spec.clamp (7 * 2) == 14) as E by reflexivity.
    rewrite <- E.
    apply (proj1 (proj2 (proj2 (proj2 (proj2
             (calculateNextInterval_cases 7 3)))))); discriminate.
  - apply (proj1 (proj2 (proj2 (proj2 (proj2 (proj2
             (calculateNextInterval_cases 7 0))))))).
    reflexivity.
Defined.

(** Where 'easy' does keep up with 'good': from the second consecutive
    correct answer on, for every interval. *)
Lemma easy_ge_good_after_first (i k : number) :
  ~ k == 0 -> ~ k == 1 ->
  calculateNextInterval DEFAULT_CONFIG i good k
    <= calculateNextInterval DEFAULT_CONFIG i easy k.
Proof.
  intros H0 H1. apply seq_false in H0, H1. unfold_interval.
  rewrite H0, H1. minmax_vars. lra.
Qed.

(** At the first consecutive correct answer 'easy' keeps up with 'good'
    only from an interval of 4 hours on. *)
Lemma easy_ge_good_first (i : number) :
  calculateNextInterval DEFAULT_CONFIG i good 1
    <= calculateNextInterval DEFAULT_CONFIG i easy 1
  <-> 4 <= i.
Proof.
  unfold_interval.
  change (seq 1 0) with false. change (seq 1 1) with true. cbv iota.
  split; intro H; minmax_vars; lra.
Qed.

(** C3. 'easy' falls behind 'good' at consecutiveCorrect = 1 on a short
    interval: from a 1-hour interval 'good' schedules the next review in 10
    hours and 'easy' in 2.5 hours. *)
Theorem easy_behind_good_at_one :
  calculateNextInterval DEFAULT_CONFIG 1 easy 1 == 5 # 2 /\
  calculateNextInterval DEFAULT_CONFIG 1 good 1 == 10 /\
  0 < 1 /\
  ~ (calculateNextInterval DEFAULT_CONFIG 1 good 1
       <= calculateNextInterval DEFAULT_CONFIG 1 easy 1).
Proof.
  refine (conj _ (conj _ (conj _ _))); try reflexivity.
  intro H. vm_compute in H. apply H. reflexivity.
Qed.

End IntervalFacts.

(** ** The mastery estimator *)

Module MasteryFacts.
Import JS JSFacts SpacedRepetition.

Lemma Qmin_inject_Z (m n : Z) :
  Qmin (inject_Z m) (inject_Z n) == inject_Z (Z.min m n).
Proof.
  destruct (Z.min_spec m n) as [[Hlt ->] | [Hle ->]].
  - apply Q.min_l. rewrite <- Zle_Qle. lia.
  - apply Q.min_r. rewrite <- Zle_Qle. lia.
Qed.

Lemma mastery_unfold (c t k i : number) :
  seq t 0 = false ->
  calculateMasteryLevel DEFAULT_CONFIG c t k i
  = Math_min (Math_round (Spec.mastery_score c t k i)) 100.
Proof.
  intro H. unfold calculateMasteryLevel. rewrite H. reflexivity.
Qed.

Lemma mastery_le_100 (c t k i : number) :
  calculateMasteryLevel DEFAULT_CONFIG c t k i <= 100.
Proof.
  unfold calculateMasteryLevel. destruct (seq t 0); [discriminate |].
  unfold Math_min. apply Q.le_min_r.
Qed.

Lemma mastery_integral (c t k i : number) :
  exists m : Z, calculateMasteryLevel DEFAULT_CONFIG c t k i == inject_Z m.
Proof.
  destruct (seq t 0) eqn:E.
  - exists 0%Z. unfold calculateMasteryLevel. rewrite E. reflexivity.
  - rewrite (mastery_unfold c t k i E).
    destruct (Math_round_spec (Spec.mastery_score c t k i)) as [m [-> _]].
    exists (Z.min m 100). apply (Qmin_inject_Z m 100).
Qed.

Lemma mastery_nonneg (c t k i : number) :
  0 <= c -> 0 <= t -> 0 <= k -> 0 <= i ->
  0 <= calculateMasteryLevel DEFAULT_CONFIG c t k i.
Proof.
  intros Hc Ht Hk Hi. destruct (seq t 0) eqn:E.
  - unfold calculateMasteryLevel. rewrite E. discriminate.
  - rewrite (mastery_unfold c t k i E).
    assert (0 <= Math_round (Spec.mastery_score c t k i)) as R.
    { apply Math_round_nonneg. unfold Spec.mastery_score.
      assert (0 <= c / t) as A.
      { unfold Qdiv. apply Qmult_le_0_compat; [exact Hc |].
        apply Qinv_le_0_compat. exact Ht. }
      assert (0 <= i / 168) as B.
      { unfold Qdiv. apply Qmult_le_0_compat; [exact Hi | discriminate]. }
      set (a := c / t) in *. set (b := i / 168) in *. clearbody a b.
      minmax_vars. lra. }
    minmax_vars. lra.
Qed.

End MasteryFacts.

(** ** The answer processor *)

Module AnswerFacts.
Import JS JSFacts SpacedRepetition IntervalFacts MasteryFacts Examples.

Local Open Scope string_scope.

Lemma field_or_nonneg (cur : option Progress) (f : Progress -> number) :
  (forall p, cur = Some p -> 0 <= f p) -> 0 <= field_or cur f 0.
Proof.
  intro H. destruct cur as [p |]; simpl; [| discriminate].
  rewrite or_else_zero. apply H. reflexivity.
Qed.

Lemma opt_field_or_nonneg (cur : option Progress)
    (f : Progress -> option number) :
  (forall p x, cur = Some p -> f p = Some x -> 0 <= x) ->
  0 <= opt_field_or cur f 0.
Proof.
  intro H. destruct cur as [p |]; simpl; [| discriminate].
  destruct (f p) as [x |] eqn:E; [| discriminate].
  rewrite or_else_zero. apply (H p x); [reflexivity | exact E].
Qed.

Lemma isQuestionMastered_spec (m c r : number) :
  isQuestionMastered m c r = true <-> Spec.mastered m c r.
Proof.
  unfold isQuestionMastered, Spec.mastered.
  rewrite !andb_true_iff, !ge_true. tauto.
Qed.

(** C2. Whatever record is loaded, the record [processAnswer] writes has
    its reviewInterval in [1,168] (also from a stored interval of 0 or
    100000), an integral masteryLevel of at most 100 that is at least 0
    when the counters of the loaded record are counts, and isCompleted set
    exactly when the written masteryLevel is at least 80, correctAnswers
    at least 3 and reviewInterval at least 24. *)
Theorem processAnswer_invariant
    (tz : TimeZone) (now : Date) (cur : option Progress) (u q t : string)
    (perf : Performance) (rt : option number) :
  let w := processAnswer DEFAULT_CONFIG tz now cur u q t perf rt in
  (1 <= w_reviewInterval w <= 168) /\
  (w_masteryLevel w <= 100) /\
  (exists m : Z, w_masteryLevel w == inject_Z m) /\
  (w_isCompleted w = true <->
   80 <= w_masteryLevel w /\ 3 <= w_correctAnswers w /\
   24 <= w_reviewInterval w) /\
  (Spec.nonneg_counts cur -> 0 <= w_masteryLevel w).
Proof.
  intro w.
  refine (conj _ (conj _ (conj _ (conj _ _)))).
  - apply nextInterval_bounds.
  - apply mastery_le_100.
  - apply mastery_integral.
  - apply isQuestionMastered_spec.
  - intro Hc.
    assert (0 <= field_or cur correctAnswers 0) as Hca.
    { apply field_or_nonneg. intros p ->. apply Hc. }
    assert (0 <= field_or cur totalAttempts 0) as Hta.
    { apply field_or_nonneg. intros p ->. apply Hc. }
    assert (0 <= opt_field_or cur consecutiveCorrect 0) as Hcc.
    { apply opt_field_or_nonneg. intros p x -> E.
      destruct Hc as [_ [_ Hc]]. rewrite E in Hc. exact Hc. }
    unfold w, processAnswer. cbn [w_masteryLevel].
    apply mastery_nonneg.
    + destruct perf; lra.
    + lra.
    + destruct perf; lra.
    + match goal with
      | |- 0 <= calculateNextInterval _ ?i ?p ?k =>
          pose proof (nextInterval_bounds i k p)
      end. lra.
Qed.

Lemma processAnswer_invariant_witness :
  Spec.nonneg_counts (Some (stored 3 100000 None)) /\
  0 <= w_masteryLevel
         (processAnswer DEFAULT_CONFIG utc 0%Z (Some (stored 3 100000 None))
            "u" "q" "t" easy None) /\
  w_reviewInterval
    (processAnswer DEFAULT_CONFIG utc 0%Z (Some (stored 3 100000 None))
       "u" "q" "t" easy None) <= 168 /\
  1 <= w_reviewInterval
    (processAnswer DEFAULT_CONFIG utc 0%Z (Some (stored 3 0 None))
       "u" "q" "t" hard None).
Proof.
  assert (Spec.nonneg_counts (Some (stored 3 100000 None))) as A.
  { simpl. repeat split; discriminate. }
  refine (conj A (conj _ (conj _ _))).
  - exact (proj2 (proj2 (proj2 (proj2 (processAnswer_invariant utc 0%Z
             (Some (stored 3 100000 None)) "u" "q" "t" easy None)))) A).
  - exact (proj2 (proj1 (processAnswer_invariant utc 0%Z
             (Some (stored 3 100000 None)) "u" "q" "t" easy None))).
  - exact (proj1 (proj1 (processAnswer_invariant utc 0%Z
             (Some (stored 3 0 None)) "u" "q" "t" hard None))).
Defined.

(** C4, as stated, fails in three places: a sample of 0 seconds leaves
    the stored average untouched; a stored average of 0 is replaced by the
    sample; and so is the average of a record that counts no attempt. *)
Lemma weighted_average_counterexample :
  ~ Spec.weighted_average (Some 10) 0
      (written_average (Some (stored 3 5 (Some 10))) good 0) /\
  ~ Spec.weighted_average (Some 0) 10
      (written_average (Some (stored 3 5 (Some 0))) good 10) /\
  ~ Spec.weighted_average (Some 10) 20
      (written_average (Some (stored 0 5 (Some 10))) good 20).
Proof.
  refine (conj _ (conj _ _)); intros [r [E H]]; vm_compute in E;
    injection E as <-; vm_compute in H; discriminate H.
Qed.

(** C4, amended. A non-zero sample [t] is averaged into a non-zero stored
    average [avg] of a record that counts at least one attempt as
    avg*0.7 + t*0.3; when the loaded record holds no average (or there is
    no record) the written average is [t]. *)
Theorem weighted_average_update
    (config : SpacedRepetitionConfig) (tz : TimeZone) (now : Date)
    (cur : option Progress)
    (u q tp : string) (perf : Performance) (t : number) :
  ~ t == 0 ->
  (forall p avg, cur = Some p -> averageResponseTime p = Some avg ->
     ~ avg == 0 /\ ~ totalAttempts p == 0) ->
  Spec.weighted_average (Spec.prior_average cur) t
    (w_averageResponseTime
       (processAnswer config tz now cur u q tp perf (Some t))).
Proof.
  intros Ht Hp. apply truthy_true in Ht.
  unfold processAnswer. cbn [w_averageResponseTime]. rewrite Ht.
  eexists. split; [reflexivity |].
  destruct cur as [p |]; cbn [Spec.prior_average]; [| reflexivity].
  destruct (averageResponseTime p) as [avg |] eqn:E;
    cbn [calculateAverageResponseTime]; [| reflexivity].
  destruct (Hp p avg eq_refl E) as [Havg Htot].
  apply truthy_true in Havg. rewrite Havg. cbn [negb orb].
  assert (seq (field_or (Some p) totalAttempts 0 + 1) 1 = false) as S.
  { apply seq_false. cbn [field_or]. rewrite or_else_zero. lra. }
  rewrite S. lra.
Qed.

Lemma weighted_average_update_witness :
  Spec.weighted_average (Some 10) 20
    (written_average (Some (stored 3 5 (Some 10))) good 20).
Proof.
  apply (weighted_average_update DEFAULT_CONFIG utc 0%Z
           (Some (stored 3 5 (Some 10))) "u" "q" "t" good 20).
  - discriminate.
  - intros p avg [= <-] [= <-]. split; discriminate.
Defined.

(** C5, as stated, fails for the two ratings that shorten the interval:
    a first answer 'again' creates the record with an interval of 1 hour
    and a first answer 'hard' with 2.5 hours, not with the initial 5. *)
Lemma first_answer_interval_counterexample :
  ~ w_reviewInterval
      (processAnswer DEFAULT_CONFIG utc 0%Z None "u" "q" "t" again None)
    == initialInterval DEFAULT_CONFIG /\
  ~ w_reviewInterval
      (processAnswer DEFAULT_CONFIG utc 0%Z None "u" "q" "t" hard None)
    == initialInterval DEFAULT_CONFIG.
Proof.
  split; intro H; vm_compute in H; discriminate H.
Qed.

(** C5, amended. On a first answer the initial interval of 5 hours stands
    in for the missing reviewInterval as the current interval handed to
    [calculateNextInterval]; the record is created with its result, which
    for 'again' is the minimum interval, 1 hour, and for 'hard' the
    initial interval divided by the hard penalty, 2.5 hours (neither
    depends on the streak). *)
Theorem first_answer_interval
    (tz : TimeZone) (now : Date) (u q t : string) (rt : option number) :
  let created perf :=
    w_reviewInterval
      (processAnswer DEFAULT_CONFIG tz now None u q t perf rt) in
  (forall perf, perf = again \/ perf = hard -> forall k,
     created perf
     == calculateNextInterval DEFAULT_CONFIG
          (initialInterval DEFAULT_CONFIG) perf k) /\
  created again == minInterval DEFAULT_CONFIG /\
  created again == 1 /\
  created hard
  == initialInterval DEFAULT_CONFIG / hardPenalty DEFAULT_CONFIG /\
  created hard == 5 # 2.
Proof.
  intro created. refine (conj _ (conj _ (conj _ (conj _ _))));
    try reflexivity.
  intros perf [-> | ->] k; reflexivity.
Qed.

(** On a first answer rated 'good' or 'easy' the streak handed to
    [calculateNextInterval] is already 1, so that the record is created
    with 10 and 12.5 hours: the values for a streak of 0, the initial 5
    hours and 10 hours, are not reached from [processAnswer]. *)
Lemma first_correct_answer_interval
    (tz : TimeZone) (now : Date) (u q t : string) (rt : option number) :
  w_reviewInterval
    (processAnswer DEFAULT_CONFIG tz now None u q t good rt) == 10 /\
  w_reviewInterval
    (processAnswer DEFAULT_CONFIG tz now None u q t easy rt) == 25 # 2 /\
  calculateNextInterval DEFAULT_CONFIG (initialInterval DEFAULT_CONFIG)
    good 0 == 5 /\
  calculateNextInterval DEFAULT_CONFIG (initialInterval DEFAULT_CONFIG)
    easy 0 == 10.
Proof.
  refine (conj _ (conj _ (conj _ _))); reflexivity.
Qed.

End AnswerFacts.

(** ** The session summarizer *)

Module SessionFacts.
Import JS JSFacts SpacedRepetition.

Lemma tier_reflect (acc eff : number) :
  Spec.tier acc eff
    (if ge acc 80 && ge eff 70 then excellent
     else if ge acc 60 && ge eff 50 then good_session
     else needs_improvement).
Proof.
  destruct (ge acc 80 && ge eff 70) eqn:E1.
  - apply andb_true_iff in E1. rewrite !ge_true in E1. exact E1.
  - assert (~ (80 <= acc /\ 70 <= eff)) as N1.
    { rewrite <- !ge_true, <- andb_true_iff. congruence. }
    destruct (ge acc 60 && ge eff 50) eqn:E2.
    + apply andb_true_iff in E2. rewrite !ge_true in E2.
      simpl. tauto.
    + assert (~ (60 <= acc /\ 50 <= eff)) as N2.
      { rewrite <- !ge_true, <- andb_true_iff. congruence. }
      simpl. tauto.
Qed.

(** C10. With a session duration of zero [generateSessionStats] returns
    questionsPerMinute = 0, whatever the other arguments, and with no
    question reviewed it returns accuracy = 0. *)
Theorem generateSessionStats_zero (qr ca d r : number) :
  (d == 0 -> questionsPerMinute (generateSessionStats qr ca d r) == 0) /\
  (qr == 0 -> accuracy (generateSessionStats qr ca d r) == 0).
Proof.
  split; intro H.
  - assert (gt d 0 = false) as G. { apply gt_false. rewrite H. lra. }
    unfold generateSessionStats. cbn [questionsPerMinute].
    rewrite G. reflexivity.
  - assert (gt qr 0 = false) as G. { apply gt_false. rewrite H. lra. }
    unfold generateSessionStats. cbn [accuracy].
    rewrite G. reflexivity.
Qed.

Lemma generateSessionStats_zero_witness :
  questionsPerMinute (generateSessionStats 10 8 0 12) == 0 /\
  accuracy (generateSessionStats 0 0 300 12) == 0.
Proof.
  split.
  - apply (proj1 (generateSessionStats_zero 10 8 0 12)). reflexivity.
  - apply (proj2 (generateSessionStats_zero 0 0 300 12)). reflexivity.
Defined.

End SessionFacts.

(** ** The figures, on doubles *)

Module DoubleFacts.
Import JS64 SpacedRepetition64.
Import SpacedRepetition (SessionPerformance, excellent, good_session,
  needs_improvement).
Local Open Scope float_scope.

Lemma Qfloor_half (q : Q) : Spec.rounds_to q (Qfloor (q + (1 # 2))).
Proof.
  pose proof (Qfloor_le (q + (1 # 2))) as Hlo.
  pose proof (Qlt_floor (q + (1 # 2))) as Hhi.
  rewrite inject_Z_plus in Hhi. change (inject_Z 1) with 1%Q in Hhi.
  unfold Spec.rounds_to.
  set (f := inject_Z (Qfloor (q + (1 # 2)))) in *. clearbody f.
  split; lra.
Qed.

(** [Math.round] gives the nearest integer of the exact value of its
    argument. *)
Lemma Math_round_rounded (x : number) : Spec64.rounded x (Math_round x).
Proof.
  unfold Spec64.rounded, Math_round. destruct (exact x) as [q |].
  - exists (Qfloor (q + (1 # 2))). split; [apply Qfloor_half | reflexivity].
  - reflexivity.
Qed.

(** [Math.round] at halves, next to a half, at the zeros, beyond 2^52 and
    at the numbers that are not finite. *)
Lemma Math_round_values :
  Math_round 0.5 = 1 /\ Math_round 1.5 = 2 /\ Math_round 2.5 = 3 /\
  Math_round (-0.5) = -0 /\ Math_round (-1.5) = -1 /\
  Math_round (-2.5) = -2 /\
  Math_round 0x1.fffffffffffffp-2 = 0 /\
  Math_round 0x1.17fffffffffffp+4 = 17 /\
  Math_round 0 = 0 /\ Math_round (-0) = -0 /\
  Math_round 4503599627370497 = 4503599627370497 /\
  Math_round 0x1p+1000 = 0x1p+1000 /\
  Math_round infinity = infinity /\
  Math_round neg_infinity = neg_infinity /\
  Math_round nan = nan.
Proof.
  repeat split; vm_compute; reflexivity.
Qed.

(** [Math.max] and [Math.min] at NaN and at the two zeros. *)
Lemma Math_max_min_values :
  Math_max 0 nan = nan /\ Math_min nan 100 = nan /\
  Math_max 0 (-0) = 0 /\ Math_max (-0) 0 = 0 /\
  Math_min 0 (-0) = -0 /\ Math_min (-0) 0 = -0 /\
  Math_max 0 neg_infinity = 0 /\ Math_min infinity 100 = 100.
Proof.
  repeat split; vm_compute; reflexivity.
Qed.

(** A number that [=== 0] (either zero) is not [> 0]. *)
Lemma zero_not_positive (x : number) : seq x 0 = true -> gt x 0 = false.
Proof.
  unfold seq, gt. rewrite eqb_spec, ltb_spec.
  change (Prim2SF 0) with (S754_zero false).
  destruct (Prim2SF x) as [s | s | | s m e]; try reflexivity;
    destruct s; cbn; discriminate.
Qed.

Lemma tier_decided (acc eff : number) :
  Spec64.tier acc eff
    (if ge acc 80 && ge eff 70 then excellent
     else if ge acc 60 && ge eff 50 then good_session
     else needs_improvement).
Proof.
  unfold Spec64.tier, Spec64.at_least, ge.
  destruct (80 <=? acc); destruct (70 <=? eff); destruct (60 <=? acc);
    destruct (50 <=? eff); cbn; intuition congruence.
Qed.

(** C6. On doubles, [calculateMasteryLevel] is 0 when there are no
    attempts, and otherwise the smaller of 100 and the rounding (to the
    nearest integer) of correct/totalAttempts*50 +
    min(consecutiveCorrect*10, 30) + min(currentInterval/168*20, 20),
    each operation being the one of doubles; it gives 100 on (3,3,3,168)
    and 0 on (0,0,0,0). *)
Theorem calculateMasteryLevel_formula (c t k i : number) :
  (seq t 0 = true -> calculateMasteryLevel DEFAULT_CONFIG c t k i = 0) /\
  (seq t 0 = false ->
   exists y : number,
     Spec64.rounded (Spec64.mastery_score c t k i) y /\
     calculateMasteryLevel DEFAULT_CONFIG c t k i = Math_min y 100) /\
  calculateMasteryLevel DEFAULT_CONFIG 3 3 3 168 = 100 /\
  calculateMasteryLevel DEFAULT_CONFIG 0 0 0 0 = 0.
Proof.
  refine (conj _ (conj _ (conj _ _))).
  - intro H. unfold calculateMasteryLevel. rewrite H. reflexivity.
  - intro H. unfold calculateMasteryLevel. rewrite H.
    exists (Math_round (Spec64.mastery_score c t k i)).
    split; [apply Math_round_rounded | reflexivity].
  - vm_compute. reflexivity.
  - vm_compute. reflexivity.
Qed.

Lemma calculateMasteryLevel_formula_witness :
  calculateMasteryLevel DEFAULT_CONFIG 0 0 2 24 = 0 /\
  exists y : number,
    Spec64.rounded (Spec64.mastery_score 1 3 0 7) y /\
    calculateMasteryLevel DEFAULT_CONFIG 1 3 0 7 = Math_min y 100.
Proof.
  split.
  - apply (proj1 (calculateMasteryLevel_formula 0 0 2 24)). reflexivity.
  - apply (proj1 (proj2 (calculateMasteryLevel_formula 1 3 0 7))).
    reflexivity.
Defined.

(** The score of the formula is the one of doubles: on (1, 3, 0, 7) it is
    17.499999999999996 and the mastery level 17, where the same
    expression on exact numbers is 17.5 and rounds to 18. *)
Lemma mastery_below_a_tie :
  Spec64.mastery_score 1 3 0 7 = 0x1.17fffffffffffp+4 /\
  calculateMasteryLevel DEFAULT_CONFIG 1 3 0 7 = 17 /\
  Spec.rounds_to (Spec.mastery_score 1 3 0 7) 18.
Proof.
  refine (conj _ (conj _ _)).
  - vm_compute. reflexivity.
  - vm_compute. reflexivity.
  - vm_compute. split; first [reflexivity | discriminate].
Qed.

(** C8, as stated, fails: with 796 correct answers out of 1000 the
    returned accuracy is 80 and the returned efficiency 100, yet the tier
    is 'good', not 'excellent', because the tier is decided on the accuracy
    before rounding (79.6). *)
Lemma tier_counterexample :
  let s := generateSessionStats 1000 796 3000 15 in
  accuracy s = 80 /\ efficiency s = 100 /\
  performance s = good_session /\
  Spec64.tier_of_returned s = excellent /\
  performance s <> Spec64.tier_of_returned s.
Proof.
  refine (conj _ (conj _ (conj _ (conj _ _)))); vm_compute;
    try reflexivity.
  discriminate.
Qed.

(** C8, amended. On doubles and for a positive duration,
    [generateSessionStats] returns accuracy = round(correct/reviewed*100)
    (0 when reviewed = 0), questionsPerMinute =
    round(reviewed/(duration/60)*10)/10, efficiency =
    round(max(0, 100 - |r - 15|*2)), each operation being the one of
    doubles and round giving the nearest integer, and the tier decided on
    the accuracy and the efficiency before rounding; on (10, 8, 300, 12)
    these are 80, 2.0, 94 and 'excellent'. *)
Theorem generateSessionStats_formula (qr ca d r : number) :
  gt d 0 = true ->
  let s := generateSessionStats qr ca d r in
  let eff := Math_max 0 (100 - Math_abs (r - 15) * 2) in
  (gt qr 0 = true ->
   Spec64.rounded (ca / qr * 100) (accuracy s) /\
   Spec64.tier (ca / qr * 100) eff (performance s)) /\
  (seq qr 0 = true ->
   accuracy s = 0 /\ Spec64.tier 0 eff (performance s)) /\
  (exists y : number,
     Spec64.rounded (qr / (d / 60) * 10) y /\
     questionsPerMinute s = y / 10) /\
  Spec64.rounded eff (efficiency s) /\
  (let e := generateSessionStats 10 8 300 12 in
   accuracy e = 80 /\ questionsPerMinute e = 2 /\ efficiency e = 94 /\
   performance e = excellent).
Proof.
  intros Hd s eff.
  refine (conj _ (conj _ (conj _ (conj _ _)))).
  - intro Hq. unfold s, generateSessionStats. cbn [accuracy performance].
    rewrite Hq. split; [apply Math_round_rounded | apply tier_decided].
  - intro Hq. apply zero_not_positive in Hq.
    unfold s, generateSessionStats. cbn [accuracy performance].
    rewrite Hq. split; [vm_compute; reflexivity | apply tier_decided].
  - unfold s, generateSessionStats. cbn [questionsPerMinute]. rewrite Hd.
    eexists. split; [apply Math_round_rounded | reflexivity].
  - unfold s, generateSessionStats. cbn [efficiency].
    apply Math_round_rounded.
  - cbv zeta. refine (conj _ (conj _ (conj _ _))); vm_compute; reflexivity.
Qed.

Lemma generateSessionStats_formula_witness :
  gt 300 0 = true /\ gt 10 0 = true /\
  Spec64.tier (8 / 10 * 100) (Math_max 0 (100 - Math_abs (12 - 15) * 2))
    (performance (generateSessionStats 10 8 300 12)).
Proof.
  assert (gt 300 0 = true) as D by reflexivity.
  assert (gt 10 0 = true) as R by reflexivity.
  refine (conj D (conj R _)).
  exact (proj2 (proj1 (generateSessionStats_formula 10 8 300 12 D) R)).
Defined.

(** On doubles too a duration of zero gives a rate of 0 and no question
    reviewed an accuracy of 0. *)
Lemma zero_duration_or_questions (qr ca d r : number) :
  (seq d 0 = true -> questionsPerMinute (generateSessionStats qr ca d r) = 0)
  /\
  (seq qr 0 = true -> accuracy (generateSessionStats qr ca d r) = 0).
Proof.
  split; intro H; apply zero_not_positive in H; unfold generateSessionStats;
    cbn [questionsPerMinute accuracy]; rewrite H; vm_compute; reflexivity.
Qed.

(** The figures are those of doubles: 23 correct answers out of 40 give
    57.49999999999999 and a returned accuracy of 57, and 9 questions in
    400 seconds a rate of 13.499999999999998 tenths, returned as 1.3;
    an average response time that is NaN gives an efficiency that is
    NaN. *)
Lemma figures_below_a_tie :
  accuracy (generateSessionStats 40 23 600 15) = 57 /\
  questionsPerMinute (generateSessionStats 9 9 400 15)
    = 0x1.4cccccccccccdp+0 /\
  efficiency (generateSessionStats 0 0 60 nan) = nan.
Proof.
  refine (conj _ (conj _ _)); vm_compute; reflexivity.
Qed.

End DoubleFacts.

(** ** The review selector *)

Module ReviewFacts.
Import JS JSFacts TimeFacts SpacedRepetition Examples.

Section Sorting.
Context {A : Type} (compare : A -> A -> number) (R : A -> A -> Prop).
Hypothesis keep_front : forall x y, gt (compare x y) 0 = false -> R x y.
Hypothesis move_back : forall x y, gt (compare x y) 0 = true -> R y x.
Hypothesis R_trans : forall x y z, R x y -> R y z -> R x z.

Lemma sort_insert_perm (x : A) (l : list A) :
  Permutation (x :: l) (sort_insert compare x l).
Proof.
  induction l as [| y l IH]; simpl.
  - apply Permutation_refl.
  - destruct (gt (compare x y) 0).
    + apply perm_trans with (y :: x :: l); [apply perm_swap |].
      apply perm_skip. exact IH.
    + apply Permutation_refl.
Qed.

Lemma Array_sort_perm (l : list A) : Permutation l (Array_sort compare l).
Proof.
  induction l as [| x l IH]; simpl.
  - apply perm_nil.
  - apply perm_trans with (x :: Array_sort compare l).
    + apply perm_skip. exact IH.
    + apply sort_insert_perm.
Qed.

Lemma sort_insert_sorted (x : A) (l : list A) :
  StronglySorted R l -> StronglySorted R (sort_insert compare x l).
Proof.
  induction l as [| y l IH]; intro S; simpl.
  - constructor; constructor.
  - inversion S as [| y' l' Sl Fy]; subst.
    destruct (gt (compare x y) 0) eqn:E.
    + constructor; [apply IH; exact Sl |].
      apply (Permutation_Forall (sort_insert_perm x l)).
      constructor; [apply move_back; exact E | exact Fy].
    + constructor; [exact S |].
      constructor; [apply keep_front; exact E |].
      apply (Forall_impl (R x)) with (2 := Fy).
      intros z Hz. apply R_trans with y; [| exact Hz].
      apply keep_front. exact E.
Qed.

Lemma Array_sort_sorted (l : list A) :
  StronglySorted R (Array_sort compare l).
Proof.
  induction l as [| x l IH]; simpl.
  - constructor.
  - apply sort_insert_sorted. exact IH.
Qed.

End Sorting.

Lemma overdue_gt (now : Date) (q : Progress) :
  gt (inject_Z (now - nextReviewAt q)) 0 = Spec.overdue now q.
Proof.
  unfold Spec.overdue. destruct (nextReviewAt q <? now)%Z eqn:E.
  - apply gt_true. apply Z.ltb_lt in E.
    change 0 with (inject_Z 0). rewrite <- Zlt_Qlt. lia.
  - apply gt_false. apply Z.ltb_ge in E.
    change 0 with (inject_Z 0). rewrite <- Zle_Qle. lia.
Qed.

Lemma overdue_le (now : Date) (q : Progress) :
  le (inject_Z (now - nextReviewAt q)) 0 = negb (Spec.overdue now q).
Proof.
  rewrite <- overdue_gt. unfold gt, le. rewrite negb_involutive.
  reflexivity.
Qed.

Lemma compareFn_cases (now : Date) (a b : Progress) :
  compareFn now a b =
  if Spec.overdue now a && negb (Spec.overdue now b) then - (1)
  else if Spec.overdue now b && negb (Spec.overdue now a) then 1
  else masteryLevel a - masteryLevel b.
Proof.
  unfold compareFn. rewrite !overdue_gt, !overdue_le. reflexivity.
Qed.

Lemma compareFn_keep_front (now : Date) (a b : Progress) :
  gt (compareFn now a b) 0 = false -> Spec.before now a b.
Proof.
  rewrite compareFn_cases. unfold Spec.before.
  destruct (Spec.overdue now a), (Spec.overdue now b); simpl; intro H.
  - right. apply gt_false in H. split; [reflexivity | lra].
  - left. split; reflexivity.
  - discriminate H.
  - right. apply gt_false in H. split; [reflexivity | lra].
Qed.

Lemma compareFn_move_back (now : Date) (a b : Progress) :
  gt (compareFn now a b) 0 = true -> Spec.before now b a.
Proof.
  rewrite compareFn_cases. unfold Spec.before.
  destruct (Spec.overdue now a), (Spec.overdue now b); simpl; intro H.
  - right. apply gt_true in H. split; [reflexivity | lra].
  - discriminate H.
  - left. split; reflexivity.
  - right. apply gt_true in H. split; [reflexivity | lra].
Qed.

(** The comparator is consistent: swapping its arguments flips the sign
    of its result, so the sorted order does not depend on which of two
    records the engine passes first. *)
Lemma compareFn_antisym (now : Date) (a b : Progress) :
  compareFn now b a == - compareFn now a b.
Proof.
  rewrite !compareFn_cases.
  destruct (Spec.overdue now a), (Spec.overdue now b); simpl;
    try reflexivity; ring.
Qed.

Lemma before_trans (now : Date) (a b c : Progress) :
  Spec.before now a b -> Spec.before now b c -> Spec.before now a c.
Proof.
  unfold Spec.before.
  destruct (Spec.overdue now a), (Spec.overdue now b),
    (Spec.overdue now c);
    intros [[? ?] | [? ?]] [[? ?] | [? ?]]; try discriminate;
    try (left; split; reflexivity);
    right; split; try reflexivity; lra.
Qed.

Lemma Array_slice0_firstn {A : Type} (l : list A) (n : Z) :
  (0 <= n)%Z -> Array_slice0 l n = firstn (Z.to_nat n) l.
Proof.
  intro H. unfold Array_slice0.
  destruct (n <? 0)%Z eqn:E; [| reflexivity].
  apply Z.ltb_lt in E. lia.
Qed.

Lemma kept_spec (tz : TimeZone) (now : Date) (t : SessionType)
    (q : Progress) :
  Spec.kept tz now t q = true <-> Spec.keeps_on_the_clock tz now t q.
Proof.
  destruct t; simpl; [apply Z.leb_le | apply Z.leb_le | tauto].
Qed.


Lemma filter_true {A : Type} (l : list A) : filter (fun _ => true) l = l.
Proof.
  induction l as [| x l IH]; simpl; [reflexivity | now rewrite IH].
Qed.

(** The filter of [getQuestionsForReview] is [Spec.kept]. *)
Lemma selection_filter (tz : TimeZone) (now : Date) (pool : list Progress)
    (sessionType : option SessionType) (limit : option Z) :
  let t := match sessionType with Some t => t | None => spaced end in
  let n := match limit with Some n => n | None => 20%Z end in
  getQuestionsForReview tz now pool sessionType limit
  = Array_slice0
      (Array_sort (compareFn now) (filter (Spec.kept tz now t) pool)) n.
Proof.
  intros t n. unfold getQuestionsForReview. fold t. fold n. cbv zeta.
  rewrite oneHourAgo_on_the_clock, twoHoursAgo_on_the_clock.
  destruct t; cbn [Spec.kept]; try reflexivity.
  rewrite filter_true. reflexivity.
Qed.




End ReviewFacts.

(** ** AI question generation *)

Module GeminiFacts.
Import Gemini GeminiSpec Examples.

Local Open Scope string_scope.

Lemma nonempty_false (s : string) : nonempty s = false <-> s = EmptyString.
Proof. destruct s; simpl; split; congruence. Qed.

Lemma scan_line_partial (d : Difficulty) st (line : string) :
  Forall (partial_question d) (fst (fst st)) ->
  Forall (partial_question d) (fst (fst (scan_line d st line))).
Proof.
  destruct st as [[qs cq] ca]. unfold scan_line. simpl. intro H.
  destruct (includes (toLowerCase line) "question" && includes line ":").
  - simpl. destruct (nonempty cq && nonempty ca) eqn:E; [| exact H].
    apply andb_true_iff in E. apply Forall_app. split; [exact H |].
    constructor; [| constructor]. exists cq, ca. tauto.
  - destruct (includes (toLowerCase line) "answer" && includes line ":");
      exact H.
Qed.

Lemma scan_fold_partial (d : Difficulty) (lines : list string) st :
  Forall (partial_question d) (fst (fst st)) ->
  Forall (partial_question d)
    (fst (fst (fold_left (scan_line d) lines st))).
Proof.
  revert st. induction lines as [| l lines IH]; intros st H; simpl.
  - exact H.
  - apply IH. apply scan_line_partial. exact H.
Qed.

Lemma scan_lines_partial (d : Difficulty) (text : string) :
  Forall (partial_question d) (scan_lines d text).
Proof.
  unfold scan_lines.
  pose proof (scan_fold_partial d
    (filter (fun line => nonempty (trim line)) (split newline text))
    ([], EmptyString, EmptyString) (Forall_nil _)) as H.
  destruct (fold_left _ _ _) as [[qs cq] ca]. simpl in H.
  destruct (nonempty cq && nonempty ca) eqn:E; [| exact H].
  apply andb_true_iff in E. apply Forall_app. split; [exact H |].
  constructor; [| constructor]. exists cq, ca. tauto.
Qed.

Section Parser.
Variable JSON_parse : string -> option json.

Lemma parse_text_total (s : string) (d : Difficulty) :
  exists qs, parseGeneratedQuestions JSON_parse (Some (JString s)) d = inr qs.
Proof.
  unfold parseGeneratedQuestions, try_catch.
  destruct (parse_json_questions _ _ _) as [e | qs].
  - eexists. reflexivity.
  - eexists. reflexivity.
Qed.

Lemma parse_text_fallback (s : string) (d : Difficulty) (e : exn) :
  parse_json_questions JSON_parse (Some (JString s)) d = inl e ->
  parseGeneratedQuestions JSON_parse (Some (JString s)) d
  = inr (scan_lines d s).
Proof.
  intro H. unfold parseGeneratedQuestions. rewrite H. reflexivity.
Qed.

Lemma parse_needs_string (v : value) (d : Difficulty) qs :
  parseGeneratedQuestions JSON_parse v d = inr qs ->
  exists s, v = Some (JString s).
Proof.
  destruct v as [[| b | n | s | l | m] |]; try discriminate.
  intros _. exists s. reflexivity.
Qed.

Lemma try_catch_rethrow {A : Type} (m : result A) :
  try_catch m (fun error => throw error) = m.
Proof. destruct m; reflexivity. Qed.

Ltac envelope_step H :=
  cbn [get get_0 bind throw ret truthy negb nonempty nth_error first] in H;
  try discriminate H;
  match type of H with
  | context [match ?x with _ => _ end] => is_var x; destruct x
  | context [negb ?b] => is_var b; destruct b
  | context [nonempty ?s] => is_var s; destruct s
  | context [assoc ?k ?m] =>
      let E := fresh "E" in destruct (assoc k m) eqn:E
  | context [JS.truthy ?n] => destruct (JS.truthy n)
  end.

Lemma generateQuestions_inr_inv (apiKey : string)
    (fetched : result Response) (d : option Difficulty) qs :
  generateQuestions JSON_parse apiKey fetched d = inr qs ->
  nonempty apiKey = true /\
  exists response data s,
    fetched = inr response /\ ok response = true /\
    json_body response = inr data /\ envelope_text data s /\
    parseGeneratedQuestions JSON_parse (Some (JString s))
      (match d with Some d => d | None => medium end) = inr qs.
Proof.
  unfold generateQuestions. intro H.
  destruct (nonempty apiKey) eqn:K; [| discriminate H].
  split; [reflexivity |]. cbn [negb] in H.
  rewrite try_catch_rethrow in H.
  destruct fetched as [e | response]; [discriminate H |].
  cbn [bind] in H.
  destruct (ok response) eqn:O; [| discriminate H]. cbn [negb] in H.
  destruct (json_body response) as [e | data] eqn:B; [discriminate H |].
  cbn [bind] in H.
  exists response, data.
  set (dd := match d with Some d => d | None => medium end) in *.
  clearbody dd.
  repeat envelope_step H.
  all: destruct (parse_needs_string _ _ _ H) as [s [= ->]];
    exists s; refine (conj eq_refl (conj O (conj B (conj _ H))));
    unfold envelope_text; do 6 eexists;
    repeat (split; [eassumption || reflexivity |]);
    eassumption || reflexivity.
Qed.

Lemma first_truthy (v x : json) :
  first v = Some x -> truthy (Some v) = true /\ get_0 (Some v) = ret (Some x).
Proof.
  destruct v as [| b | n | s | [| y l] | m]; simpl; try discriminate.
  - intros [= ->]. split; reflexivity.
  - intros ->. split; reflexivity.
Qed.

Lemma generateQuestions_text (apiKey : string) (response : Response)
    (data : json) (s : string) (d : option Difficulty) :
  nonempty apiKey = true -> ok response = true ->
  json_body response = inr data -> envelope_text data s ->
  generateQuestions JSON_parse apiKey (inr response) d
  = parseGeneratedQuestions JSON_parse (Some (JString s))
      (match d with Some d => d | None => medium end).
Proof.
  intros K O B (members & candidates & candidate & content & parts & part
                & -> & Ec & Hc & Eo & Ep & Hp & Et).
  destruct (first_truthy _ _ Hc) as [Tc Gc].
  destruct (first_truthy _ _ Hp) as [_ Gp].
  unfold generateQuestions. rewrite K. cbn [negb].
  rewrite try_catch_rethrow. cbn [bind]. rewrite O, B.
  cbn [negb bind get ret]. rewrite Ec, Tc. cbn [negb].
  rewrite Gc. cbn [bind ret truthy negb get]. rewrite Eo.
  cbn [truthy negb get bind ret]. rewrite Ep, Gp.
  cbn [bind ret get]. rewrite Et. reflexivity.
Qed.

Lemma envelope_text_has_candidates (data : json) (s : string) :
  envelope_text data s -> has_candidates data.
Proof.
  intros (members & candidates & candidate & content & parts & part
          & -> & Ec & Hc & Eo & _).
  exists members, candidates, candidate, (JObject content).
  repeat (split; [assumption || reflexivity |]). reflexivity.
Qed.

End Parser.

Lemma envelope_without_parts_has_candidates :
  has_candidates envelope_without_parts.
Proof.
  unfold has_candidates, envelope_without_parts.
  do 4 eexists.
  repeat (split; [reflexivity |]). reflexivity.
Qed.

Lemma envelope_with_text (s : string) : envelope_text (envelope_with s) s.
Proof.
  unfold envelope_text, envelope_with.
  do 6 eexists.
  repeat (split; [reflexivity |]). reflexivity.
Qed.

(** C9, as stated, fails: with a key configured, a successful response
    and an envelope that has candidates, generation still fails when the
    content of the first candidate has no parts; and it fails when the
    request itself does. *)
Lemma fails_exactly_when_counterexample :
  ~ fails_exactly_when "key" (success envelope_without_parts)
      envelope_without_parts
      (generateQuestions reject_all "key"
         (inr (success envelope_without_parts)) None) /\
  generateQuestions reject_all "key"
    (inr (success envelope_without_parts)) None = inl TypeError /\
  generateQuestions reject_all "key" (inl FetchFailed) None
  = inl FetchFailed.
Proof.
  refine (conj _ (conj eq_refl eq_refl)).
  unfold fails_exactly_when. intros [H _].
  destruct H as [H | [H | H]].
  - exists TypeError. reflexivity.
  - discriminate H.
  - discriminate H.
  - apply H. apply envelope_without_parts_has_candidates.
Qed.

(** C9, amended. Generation fails whenever no key is configured, or the
    HTTP response is not a success, or its envelope lacks candidates,
    though not only then: it succeeds exactly when a key is configured and
    a successful response carries a string at
    candidates[0].content.parts[0].text (so it also fails when the request
    fails, the body is not JSON, or that text is missing).  Given such a
    response whose text cannot be parsed as the expected JSON, it does not
    fail: it returns the list of the fallback parser, whose questions are
    open, with a non-empty question and answer. *)
Theorem generateQuestions_failures
    (JSON_parse : string -> option json) (apiKey : string)
    (fetched : result Response) (d : option Difficulty) :
  let outcome := generateQuestions JSON_parse apiKey fetched d in
  let dd := match d with Some d => d | None => medium end in
  (apiKey = EmptyString -> outcome = inl ApiKeyNotConfigured) /\
  (forall response,
     apiKey <> EmptyString -> fetched = inr response ->
     ok response = false ->
     outcome
     = inl (RequestFailed (status response) (statusText response))) /\
  (forall response data,
     fetched = inr response -> json_body response = inr data ->
     ~ has_candidates data -> exists e, outcome = inl e) /\
  ((exists qs, outcome = inr qs) <->
   apiKey <> EmptyString /\
   exists response data s,
     fetched = inr response /\ ok response = true /\
     json_body response = inr data /\ envelope_text data s) /\
  (forall response data s e,
     apiKey <> EmptyString -> fetched = inr response ->
     ok response = true -> json_body response = inr data ->
     envelope_text data s ->
     parse_json_questions JSON_parse (Some (JString s)) dd = inl e ->
     outcome = inr (scan_lines dd s) /\
     Forall (partial_question dd) (scan_lines dd s)).
Proof.
  intros outcome dd.
  assert (forall qs, outcome = inr qs ->
            apiKey <> EmptyString /\
            exists response data s,
              fetched = inr response /\ ok response = true /\
              json_body response = inr data /\ envelope_text data s)
    as Inv.
  { intros qs H.
    destruct (generateQuestions_inr_inv _ _ _ _ _ H)
      as [K (response & data & s & F & O & B & T & _)].
    split.
    - intros ->. discriminate K.
    - exists response, data, s. tauto. }
  assert (forall response data s,
            apiKey <> EmptyString -> fetched = inr response ->
            ok response = true -> json_body response = inr data ->
            envelope_text data s ->
            outcome
            = parseGeneratedQuestions JSON_parse (Some (JString s)) dd)
    as Run.
  { intros response data s K -> O B T.
    apply generateQuestions_text with (data := data); try assumption.
    destruct apiKey; [contradiction | reflexivity]. }
  refine (conj _ (conj _ (conj _ (conj _ _)))).
  - intros ->. reflexivity.
  - intros response K F O. unfold outcome, generateQuestions.
    destruct apiKey; [contradiction |]. cbn [nonempty negb].
    rewrite try_catch_rethrow, F. cbn [bind]. rewrite O. reflexivity.
  - intros response data F B N.
    destruct outcome as [e | qs] eqn:E; [exists e; reflexivity |].
    exfalso. apply N.
    destruct (Inv qs eq_refl)
      as [_ (response' & data' & s & F' & _ & B' & T)].
    rewrite F in F'. injection F' as <-.
    rewrite B in B'. injection B' as <-.
    apply envelope_text_has_candidates with s. exact T.
  - split.
    + intros [qs H]. exact (Inv qs H).
    + intros [K (response & data & s & F & O & B & T)].
      rewrite (Run response data s K F O B T).
      apply parse_text_total.
  - intros response data s e K F O B T P.
    rewrite (Run response data s K F O B T).
    split.
    + apply parse_text_fallback with e. exact P.
    + apply scan_lines_partial.
Qed.

Lemma generateQuestions_failures_witness :
  generateQuestions reject_all "key"
    (inr (success (envelope_with plain_text))) None
  = inr (scan_lines medium plain_text) /\
  scan_lines medium plain_text
  = [open_question "What is recall?" "Retrieval from memory" medium].
Proof.
  split; [| reflexivity].
  refine (proj1 (proj2 (proj2 (proj2 (proj2
            (generateQuestions_failures reject_all "key"
               (inr (success (envelope_with plain_text))) None))))
            (success (envelope_with plain_text)) (envelope_with plain_text)
            plain_text NoJsonFound _ eq_refl eq_refl eq_refl
            (envelope_with_text plain_text) eq_refl)).
  discriminate.
Defined.

End GeminiFacts.

(** ** More on the interval calculator *)

Module IntervalExtras.
Import JS JSFacts SpacedRepetition IntervalFacts.

Lemma half_le (i j : Q) : i <= j -> i / 2 <= j / 2.
Proof.
  intro H. unfold Qdiv. apply Qmult_le_compat_r; [exact H | discriminate].
Qed.

Lemma half_spec (i : Q) : i / 2 + i / 2 == i.
Proof. field. Qed.

(** X1. For every rating and streak, a longer current interval never
    gives a shorter next interval. *)
Theorem calculateNextInterval_monotone
    (i j k : number) (p : Performance) :
  i <= j ->
  calculateNextInterval DEFAULT_CONFIG i p k
    <= calculateNextInterval DEFAULT_CONFIG j p k.
Proof.
  intro H. pose proof (half_le i j H) as Hh.
  unfold_interval.
  set (a := i / 2) in *. set (b := j / 2) in *. clearbody a b.
  destruct p; try destruct (seq k 0); try destruct (seq k 1);
    minmax_vars; lra.
Qed.

Lemma calculateNextInterval_monotone_witness :
  3 <= 50 /\
  calculateNextInterval DEFAULT_CONFIG 3 hard 4
    <= calculateNextInterval DEFAULT_CONFIG 50 hard 4.
Proof.
  assert (3 <= 50) as H by discriminate.
  exact (conj H (calculateNextInterval_monotone 3 50 4 hard H)).
Defined.

(** X2. From the second consecutive correct answer on, the four ratings
    are ordered for every current interval: again <= hard <= good <=
    easy. *)
Theorem ratings_ordered (i k : number) :
  ~ k == 0 -> ~ k == 1 ->
  calculateNextInterval DEFAULT_CONFIG i again k
    <= calculateNextInterval DEFAULT_CONFIG i hard k /\
  calculateNextInterval DEFAULT_CONFIG i hard k
    <= calculateNextInterval DEFAULT_CONFIG i good k /\
  calculateNextInterval DEFAULT_CONFIG i good k
    <= calculateNextInterval DEFAULT_CONFIG i easy k.
Proof.
  intros H0 H1. apply seq_false in H0, H1.
  pose proof (half_spec i) as Hh.
  unfold_interval. rewrite H0, H1.
  set (a := i / 2) in *. clearbody a.
  refine (conj _ (conj _ _)); minmax_vars; lra.
Qed.

Lemma ratings_ordered_witness :
  calculateNextInterval DEFAULT_CONFIG 30 hard 2
    <= calculateNextInterval DEFAULT_CONFIG 30 good 2.
Proof.
  apply (proj1 (proj2 (ratings_ordered 30 2 ltac:(discriminate)
                         ltac:(discriminate)))).
Defined.

(** X3. On an interval between 1 and 168 hours, 'hard' never lengthens
    the interval (it is halved, but not below 1), and from the second
    consecutive correct answer on 'good' and 'easy' never shorten it
    ('good' doubles it and 'easy' multiplies it by 2.5, up to the cap of
    168, where both stay). *)
Theorem in_range_direction (i k : number) :
  1 <= i -> i <= 168 ->
  calculateNextInterval DEFAULT_CONFIG i hard k <= i /\
  calculateNextInterval DEFAULT_CONFIG i hard k == Qmax (i / 2) 1 /\
  (~ k == 0 -> ~ k == 1 ->
   i <= calculateNextInterval DEFAULT_CONFIG i good k /\
   calculateNextInterval DEFAULT_CONFIG i good k == Qmin (i * 2) 168 /\
   calculateNextInterval DEFAULT_CONFIG i easy k
     == Qmin (i * (5 # 2)) 168 /\
   (i == 168 ->
    calculateNextInterval DEFAULT_CONFIG i good k == 168 /\
    calculateNextInterval DEFAULT_CONFIG i easy k == 168)).
Proof.
  intros Hlo Hhi. pose proof (half_spec i) as Hh.
  refine (conj _ (conj _ _)).
  - unfold_interval. set (a := i / 2) in *. clearbody a.
    minmax_vars. lra.
  - unfold_interval. set (a := i / 2) in *. clearbody a.
    minmax_vars. lra.
  - intros H0 H1. apply seq_false in H0, H1.
    unfold_interval. rewrite H0, H1.
    refine (conj _ (conj _ (conj _ _)));
      [ | | | intro E; refine (conj _ _)]; minmax_vars; lra.
Qed.

Lemma in_range_direction_witness :
  calculateNextInterval DEFAULT_CONFIG 100 hard 3 <= 100 /\
  100 <= calculateNextInterval DEFAULT_CONFIG 100 good 3.
Proof.
  assert (1 <= 100) as A by discriminate.
  assert (100 <= 168) as B by discriminate.
  split.
  - exact (proj1 (in_range_direction 100 3 A B)).
  - apply (proj1 (proj2 (proj2 (in_range_direction 100 3 A B))
                    ltac:(discriminate) ltac:(discriminate))).
Defined.

End IntervalExtras.

(** ** More on the mastery estimator and the answer processor *)

Module AnswerExtras.
Import JS JSFacts TimeFacts SpacedRepetition IntervalFacts MasteryFacts
  AnswerFacts Examples.

Local Open Scope string_scope.

Lemma Math_round_monotone (x y : number) :
  x <= y -> Math_round x <= Math_round y.
Proof.
  intro H. unfold Math_round. rewrite <- Zle_Qle.
  apply Qfloor_resp_le. lra.
Qed.

(** X4. With at least one attempt, the mastery level never decreases when
    the number of correct answers, the streak or the interval grows. *)
Theorem calculateMasteryLevel_monotone
    (c c' t k k' i i' : number) :
  0 < t -> c <= c' -> k <= k' -> i <= i' ->
  calculateMasteryLevel DEFAULT_CONFIG c t k i
    <= calculateMasteryLevel DEFAULT_CONFIG c' t k' i'.
Proof.
  intros Ht Hc Hk Hi.
  assert (seq t 0 = false) as E. { apply seq_false. lra. }
  rewrite !(mastery_unfold _ t _ _ E).
  assert (Math_round (Spec.mastery_score c t k i)
          <= Math_round (Spec.mastery_score c' t k' i')) as R.
  { apply Math_round_monotone. unfold Spec.mastery_score.
    assert (c / t <= c' / t) as A.
    { unfold Qdiv. apply Qmult_le_compat_r; [exact Hc |].
      apply Qinv_le_0_compat. lra. }
    assert (i / 168 <= i' / 168) as B.
    { unfold Qdiv. apply Qmult_le_compat_r; [exact Hi | discriminate]. }
    set (a := c / t) in *. set (a' := c' / t) in *.
    set (b := i / 168) in *. set (b' := i' / 168) in *.
    clearbody a a' b b'. minmax_vars. lra. }
  minmax_vars. lra.
Qed.

Lemma calculateMasteryLevel_monotone_witness :
  calculateMasteryLevel DEFAULT_CONFIG 2 4 1 10
    <= calculateMasteryLevel DEFAULT_CONFIG 3 4 2 20.
Proof.
  apply calculateMasteryLevel_monotone; first [reflexivity | discriminate].
Defined.

(** The value of a numeric field of the loaded record, 0 without a
    record. *)
Lemma field_or_value (cur : option Progress) (f : Progress -> number) :
  field_or cur f 0 == match cur with Some p => f p | None => 0 end.
Proof.
  destruct cur as [p |]; simpl; [apply or_else_zero | reflexivity].
Qed.

Lemma opt_field_or_value (cur : option Progress)
    (f : Progress -> option number) :
  opt_field_or cur f 0
  == match cur with
     | Some p => match f p with Some x => x | None => 0 end
     | None => 0
     end.
Proof.
  destruct cur as [p |]; simpl; [| reflexivity].
  destruct (f p); [apply or_else_zero | reflexivity].
Qed.

(** X5. A failed recall ('again') always writes an interval of 1 hour
    and schedules the next review for the instant at which the local
    clock reads one hour more than at the answer (one hour after the
    answer when the offset is kept over that hour, [Spec.offset_kept]);
    it resets the streak to 0, leaves the number of correct answers as it
    was and writes isCompleted = false, whatever record is loaded. *)
Theorem lapse_resets
    (tz : TimeZone) (now : Date) (cur : option Progress) (u q t : string)
    (rt : option number) :
  let w := processAnswer DEFAULT_CONFIG tz now cur u q t again rt in
  w_reviewInterval w == 1 /\
  w_nextReviewAt w = Spec.clock_hours_later tz now 1 /\
  (Spec.offset_kept tz now 1 ->
   w_nextReviewAt w = (now + msPerHour)%Z) /\
  w_consecutiveCorrect w == 0 /\
  w_correctAnswers w
    == match cur with Some p => correctAnswers p | None => 0 end /\
  w_isCompleted w = false.
Proof.
  intro w.
  assert (w_nextReviewAt w = Spec.clock_hours_later tz now 1) as N.
  { unfold w, processAnswer. cbn [w_nextReviewAt].
    rewrite setHours_later; [reflexivity | discriminate]. }
  refine (conj _ (conj N (conj _ (conj _ (conj _ _))))).
  - reflexivity.
  - intro K. rewrite N. rewrite (offset_kept_later tz now 1 K).
    reflexivity.
  - reflexivity.
  - apply field_or_value.
  - destruct (w_isCompleted w) eqn:E; [| reflexivity].
    apply isQuestionMastered_spec in E.
    destruct E as [_ [_ E]]. exfalso. revert E. apply Qlt_not_le.
    reflexivity.
Qed.

(** X6. Every answer adds one attempt, adds one correct answer unless the
    rating is 'again', and extends the streak by one or resets it; if the
    loaded record satisfies 0 <= consecutiveCorrect <= correctAnswers <=
    totalAttempts (a missing streak counting as 0), so does the written
    one. *)
Theorem processAnswer_counters
    (config : SpacedRepetitionConfig) (tz : TimeZone)
    (now : Date) (cur : option Progress) (u q t : string)
    (perf : Performance) (rt : option number) :
  let w := processAnswer config tz now cur u q t perf rt in
  let total := match cur with Some p => totalAttempts p | None => 0 end in
  let correct := match cur with Some p => correctAnswers p | None => 0 end in
  let streak :=
    match cur with
    | Some p => match consecutiveCorrect p with Some x => x | None => 0 end
    | None => 0
    end in
  w_totalAttempts w == total + 1 /\
  w_correctAnswers w
    == correct + match perf with again => 0 | _ => 1 end /\
  w_consecutiveCorrect w
    == match perf with again => 0 | _ => streak + 1 end /\
  (0 <= streak -> streak <= correct -> correct <= total ->
   0 <= w_consecutiveCorrect w /\
   w_consecutiveCorrect w <= w_correctAnswers w /\
   w_correctAnswers w <= w_totalAttempts w).
Proof.
  intros w total correct streak.
  assert (w_totalAttempts w == total + 1) as A.
  { unfold w, processAnswer. cbn [w_totalAttempts].
    rewrite field_or_value. reflexivity. }
  assert (w_correctAnswers w
          == correct + match perf with again => 0 | _ => 1 end) as B.
  { unfold w, processAnswer. cbn [w_correctAnswers].
    destruct perf; rewrite field_or_value; unfold correct;
      first [reflexivity | symmetry; apply Qplus_0_r]. }
  assert (w_consecutiveCorrect w
          == match perf with again => 0 | _ => streak + 1 end) as C.
  { unfold w, processAnswer. cbn [w_consecutiveCorrect].
    destruct perf; try rewrite opt_field_or_value; reflexivity. }
  refine (conj A (conj B (conj C _))).
  intros H0 H1 H2. rewrite A, B, C. clearbody total correct streak.
  destruct perf; refine (conj _ (conj _ _)); lra.
Qed.

Lemma processAnswer_counters_witness :
  let w := processAnswer DEFAULT_CONFIG utc 0%Z (Some (stored 3 5 None))
             "u" "q" "t" good None in
  w_consecutiveCorrect w <= w_correctAnswers w /\
  w_correctAnswers w <= w_totalAttempts w.
Proof.
  exact (proj2 (proj2 (proj2 (proj2 (processAnswer_counters DEFAULT_CONFIG
           utc 0%Z (Some (stored 3 5 None)) "u" "q" "t" good None)))
           ltac:(discriminate) ltac:(discriminate) ltac:(discriminate))).
Defined.

(** X7. A question is marked completed only by an answer other than
    'again' to a question that already has a record with at least 2
    correct answers and a stored interval of at least 9.6 hours; in
    particular never by the first answer. *)
Theorem completion_needs_history
    (tz : TimeZone) (now : Date) (cur : option Progress) (u q t : string)
    (perf : Performance) (rt : option number) :
  w_isCompleted (processAnswer DEFAULT_CONFIG tz now cur u q t perf rt)
    = true ->
  perf <> again /\
  exists p, cur = Some p /\ 2 <= correctAnswers p /\
            48 # 5 <= reviewInterval p.
Proof.
  intro H. apply isQuestionMastered_spec in H.
  destruct H as [_ [Hc Hi]].
  assert (perf <> again) as Hp.
  { intros ->. revert Hi. apply Qlt_not_le. reflexivity. }
  split; [exact Hp |].
  destruct cur as [p |].
  - exists p. split; [reflexivity |]. split.
    + revert Hc. destruct perf; try contradiction; cbn [field_or];
        rewrite or_else_zero; intro Hc; lra.
    + revert Hi. unfold_interval. cbn [field_or]. unfold or_else.
      destruct (truthy (reviewInterval p)) eqn:T.
      * assert (reviewInterval p / 2 + reviewInterval p / 2
                == reviewInterval p) as Hh by field.
        set (i := reviewInterval p) in *.
        set (a := i / 2) in *. clearbody a. clearbody i.
        destruct perf; try contradiction;
          try destruct (seq _ 0); try destruct (seq _ 1);
          intro Hi; minmax_vars; lra.
      * destruct perf; try contradiction;
          try destruct (seq _ 0); try destruct (seq _ 1);
          intro Hi; vm_compute in Hi; contradiction Hi; reflexivity.
  - exfalso. revert Hc. destruct perf; try contradiction;
      apply Qlt_not_le; reflexivity.
Qed.

Lemma completion_needs_history_witness :
  exists p, Some (stored 2 40 None) = Some p /\ 2 <= correctAnswers p /\
            48 # 5 <= reviewInterval p.
Proof.
  exact (proj2 (completion_needs_history utc 0%Z (Some (stored 2 40 None))
                  "u" "q" "t" good None eq_refl)).
Defined.

End AnswerExtras.

(** ** More on the review selector *)

Module ReviewExtras.
Import JS JSFacts SpacedRepetition ReviewFacts Examples.

Section StableSort.
Context {A : Type} (compare : A -> A -> number).

Lemma Array_sort_of_sorted (l : list A) :
  StronglySorted (fun x y => gt (compare x y) 0 = false) l ->
  Array_sort compare l = l.
Proof.
  induction 1 as [| x l S IH F]; simpl; [reflexivity |].
  rewrite IH. destruct l as [| y l']; [reflexivity |].
  simpl. inversion F as [| ? ? Hxy _]; subst.
  rewrite Hxy. reflexivity.
Qed.

End StableSort.

Lemma In_firstn {A : Type} (n : nat) (l : list A) (x : A) :
  In x (firstn n l) -> In x l.
Proof.
  revert n. induction l as [| y l IH]; intros n H.
  - rewrite firstn_nil in H. exact H.
  - destruct n as [| n]; simpl in H; [contradiction |].
    destruct H as [-> | H]; [left; reflexivity | right; eauto].
Qed.

Lemma StronglySorted_firstn {A : Type} (R : A -> A -> Prop)
    (n : nat) (l : list A) :
  StronglySorted R l -> StronglySorted R (firstn n l).
Proof.
  revert n. induction l as [| x l IH]; intros n S.
  - rewrite firstn_nil. constructor.
  - destruct n as [| n]; simpl; [constructor |].
    inversion S as [| ? ? Sl F]; subst.
    constructor; [apply IH; exact Sl |].
    rewrite Forall_forall in F |- *. intros y Hy.
    apply F. apply (In_firstn _ _ _ Hy).
Qed.

Lemma filter_all {A : Type} (f : A -> bool) (l : list A) :
  Forall (fun x => f x = true) l -> filter f l = l.
Proof.
  induction 1 as [| x l Hx _ IH]; simpl; [reflexivity |].
  rewrite Hx, IH. reflexivity.
Qed.

Lemma before_in_order (now : Date) (a b : Progress) :
  Spec.before now a b <-> gt (compareFn now a b) 0 = false.
Proof.
  split; [| apply compareFn_keep_front].
  rewrite compareFn_cases. unfold Spec.before.
  destruct (Spec.overdue now a), (Spec.overdue now b); simpl;
    intros [[? ?] | [? H]]; try discriminate; try reflexivity;
    apply gt_false; lra.
Qed.

Lemma selection_sorted (now : Date) (l : list Progress) :
  StronglySorted (Spec.before now) (Array_sort (compareFn now) l).
Proof.
  apply Array_sort_sorted.
  - apply compareFn_keep_front.
  - apply compareFn_move_back.
  - apply before_trans.
Qed.

Lemma StronglySorted_iff {A : Type} (R S : A -> A -> Prop) (l : list A) :
  (forall x y, R x y -> S x y) ->
  StronglySorted R l -> StronglySorted S l.
Proof.
  intros H. induction 1 as [| x l _ IH F]; constructor; [exact IH |].
  apply (Forall_impl _ (H x) F).
Qed.

(** The selection written with the filter of the session type. *)
Lemma selection_eq (tz : TimeZone) (now : Date) (pool : list Progress)
    (sessionType : option SessionType) (limit : option Z) :
  let t := match sessionType with Some t => t | None => spaced end in
  let n := match limit with Some n => n | None => 20%Z end in
  (0 <= n)%Z ->
  getQuestionsForReview tz now pool sessionType limit
  = firstn (Z.to_nat n)
      (Array_sort (compareFn now) (filter (Spec.kept tz now t) pool)).
Proof.
  intros t n Hn. rewrite selection_filter. fold t. fold n.
  apply (Array_slice0_firstn _ n Hn).
Qed.

(** X8. Selecting again from a selection, with the same clock, session
    type and (non-negative) limit, returns it unchanged: the records are
    already filtered, in order and within the limit. *)
Theorem selection_idempotent (tz : TimeZone) (now : Date)
    (pool : list Progress)
    (sessionType : option SessionType) (limit : option Z) :
  (0 <= match limit with Some n => n | None => 20%Z end)%Z ->
  getQuestionsForReview tz now
    (getQuestionsForReview tz now pool sessionType limit) sessionType limit
  = getQuestionsForReview tz now pool sessionType limit.
Proof.
  intro Hn.
  rewrite (selection_eq tz now _ sessionType limit Hn).
  rewrite (selection_eq tz now pool sessionType limit Hn).
  set (t := match sessionType with Some t => t | None => spaced end).
  set (n := Z.to_nat match limit with Some n => n | None => 20%Z end).
  set (L := Array_sort (compareFn now) (filter (Spec.kept tz now t) pool)).
  assert (Forall (fun q => Spec.kept tz now t q = true) (firstn n L)) as K.
  { rewrite Forall_forall. intros q Hq. apply In_firstn in Hq.
    assert (In q (filter (Spec.kept tz now t) pool)) as Hf.
    { apply (Permutation_in q
               (Permutation_sym (Array_sort_perm (compareFn now) _))).
      exact Hq. }
    apply filter_In in Hf. apply Hf. }
  rewrite (filter_all _ _ K).
  rewrite Array_sort_of_sorted.
  - rewrite firstn_firstn. rewrite Nat.min_id. reflexivity.
  - apply StronglySorted_firstn.
    apply StronglySorted_iff with (R := Spec.before now).
    + intros x y. apply before_in_order.
    + apply selection_sorted.
Qed.

Lemma selection_idempotent_witness :
  getQuestionsForReview utc 10000000
    (getQuestionsForReview utc 10000000
       [item 9000000 9999999 70; item 1000 9999999 10;
        item 9500000 10000000 20; item 9900000 9999000 30]
       (Some immediate) (Some 2%Z)) (Some immediate) (Some 2%Z)
  = getQuestionsForReview utc 10000000
      [item 9000000 9999999 70; item 1000 9999999 10;
       item 9500000 10000000 20; item 9900000 9999000 30]
      (Some immediate) (Some 2%Z).
Proof.
  apply selection_idempotent. simpl. lia.
Defined.

(** X9. With a positive limit the selection is empty exactly when no
    record of the pool passes the filter of the session type; otherwise
    its first record is a record of the pool that passes the filter and
    that comes before every other such record: an overdue one if there is
    any, of the lowest masteryLevel among them. *)
Theorem selection_head (tz : TimeZone) (now : Date)
    (pool : list Progress)
    (sessionType : option SessionType) (limit : option Z) :
  let t := match sessionType with Some t => t | None => spaced end in
  (0 < match limit with Some n => n | None => 20%Z end)%Z ->
  match getQuestionsForReview tz now pool sessionType limit with
  | [] => forall q, In q pool -> ~ Spec.keeps_on_the_clock tz now t q
  | h :: _ =>
      In h pool /\ Spec.keeps_on_the_clock tz now t h /\
      forall q, In q pool -> Spec.keeps_on_the_clock tz now t q ->
                Spec.before now h q
  end.
Proof.
  intros t Hn.
  rewrite (selection_eq tz now pool sessionType limit) by lia. fold t.
  set (n := Z.to_nat match limit with Some n => n | None => 20%Z end).
  assert (exists m, n = S m) as [m ->].
  { exists (Nat.pred n). unfold n. lia. }
  pose proof (selection_sorted now (filter (Spec.kept tz now t) pool)) as S.
  pose proof (Array_sort_perm (compareFn now)
                (filter (Spec.kept tz now t) pool)) as P.
  destruct (Array_sort (compareFn now) (filter (Spec.kept tz now t) pool))
    as [| h L]; simpl.
  - intros q Hq Hk. apply kept_spec in Hk.
    apply Permutation_sym, Permutation_nil in P.
    assert (In q (filter (Spec.kept tz now t) pool)) as Hf.
    { apply filter_In. split; assumption. }
    rewrite P in Hf. exact Hf.
  - assert (In h (filter (Spec.kept tz now t) pool)) as Hh.
    { apply (Permutation_in h (Permutation_sym P)). left. reflexivity. }
    apply filter_In in Hh. destruct Hh as [Hp Hk].
    split; [exact Hp |]. split; [apply kept_spec; exact Hk |].
    intros q Hq Hkq. apply kept_spec in Hkq.
    assert (In q (h :: L)) as Hin.
    { apply (Permutation_in q P). apply filter_In. split; assumption. }
    destruct Hin as [<- | Hin].
    + right. split; [reflexivity | apply Qle_refl].
    + inversion S as [| ? ? _ F]; subst.
      rewrite Forall_forall in F. apply F. exact Hin.
Qed.

Lemma selection_head_witness :
  match getQuestionsForReview utc 10000000
          [item 9000000 9999999 70; item 1000 9999999 10;
           item 9500000 10000000 20; item 9900000 9999000 30]
          (Some immediate) (Some 2%Z) with
  | [] =>
      forall q,
        In q [item 9000000 9999999 70; item 1000 9999999 10;
              item 9500000 10000000 20; item 9900000 9999000 30] ->
        ~ Spec.keeps_on_the_clock utc 10000000 immediate q
  | h :: _ =>
      In h [item 9000000 9999999 70; item 1000 9999999 10;
            item 9500000 10000000 20; item 9900000 9999000 30] /\
      Spec.keeps_on_the_clock utc 10000000 immediate h /\
      forall q,
        In q [item 9000000 9999999 70; item 1000 9999999 10;
              item 9500000 10000000 20; item 9900000 9999000 30] ->
        Spec.keeps_on_the_clock utc 10000000 immediate q ->
        Spec.before 10000000 h q
  end.
Proof.
  apply (selection_head utc 10000000
    [item 9000000 9999999 70; item 1000 9999999 10;
     item 9500000 10000000 20; item 9900000 9999000 30]
    (Some immediate) (Some 2%Z)).
  simpl. lia.
Defined.

(** X10. When every kept record is strictly overdue (as in a due pool
    fetched before the clock is read), the selection is in ascending
    order of masteryLevel. *)
Theorem selection_by_mastery (tz : TimeZone) (now : Date)
    (pool : list Progress)
    (sessionType : option SessionType) (limit : option Z) :
  (0 <= match limit with Some n => n | None => 20%Z end)%Z ->
  Forall (fun q => (nextReviewAt q < now)%Z) pool ->
  StronglySorted (fun a b => masteryLevel a <= masteryLevel b)
    (getQuestionsForReview tz now pool sessionType limit).
Proof.
  intros Hn Hdue.
  rewrite (selection_eq tz now pool sessionType limit Hn).
  apply StronglySorted_firstn.
  set (t := match sessionType with Some t => t | None => spaced end).
  pose proof (selection_sorted now (filter (Spec.kept tz now t) pool)) as S.
  pose proof (Array_sort_perm (compareFn now)
                (filter (Spec.kept tz now t) pool)) as P.
  assert (Forall (fun q => Spec.overdue now q = true)
            (Array_sort (compareFn now) (filter (Spec.kept tz now t) pool)))
    as O.
  { rewrite Forall_forall. intros q Hq.
    apply (Permutation_in q (Permutation_sym P)) in Hq.
    apply filter_In in Hq. destruct Hq as [Hq _].
    rewrite Forall_forall in Hdue. apply Z.ltb_lt. apply Hdue. exact Hq. }
  clear P. revert O.
  induction S as [| x l Sl IH F]; intro O; constructor.
  - apply IH. inversion O; assumption.
  - inversion O as [| ? ? Ox Ol]; subst.
    rewrite Forall_forall in F, Ol |- *. intros y Hy.
    destruct (F y Hy) as [[_ Hb] | [_ Hm]]; [| exact Hm].
    rewrite (Ol y Hy) in Hb. discriminate Hb.
Qed.

Lemma selection_by_mastery_witness :
  StronglySorted (fun a b => masteryLevel a <= masteryLevel b)
    (getQuestionsForReview utc 10000000
       [item 9000000 9999999 70; item 1000 9999999 10;
        item 9900000 9999000 30]
       (Some manual) None).
Proof.
  apply selection_by_mastery.
  - simpl. lia.
  - repeat constructor.
Defined.

End ReviewExtras.

(** ** More on the session summarizer *)

Module SessionExtras.
Import JS JSFacts SpacedRepetition SessionFacts AnswerExtras.

(** X11. The tier never overstates the returned figures: 'excellent'
    comes with a returned accuracy of at least 80 and a returned
    efficiency of at least 70, 'good' with at least 60 and 50. *)
Theorem tier_sound (qr ca d r : number) :
  let s := generateSessionStats qr ca d r in
  (performance s = excellent ->
   80 <= accuracy s /\ 70 <= efficiency s) /\
  (performance s = good_session ->
   60 <= accuracy s /\ 50 <= efficiency s).
Proof.
  intro s. unfold s, generateSessionStats.
  cbn [performance accuracy efficiency].
  set (acc := if gt qr 0 then ca / qr * 100 else 0).
  set (eff := Math_max 0 (100 - Math_abs (r - 15) * 2)).
  pose proof (tier_reflect acc eff) as T.
  destruct (ge acc 80 && ge eff 70).
  - split; [intros _ | discriminate]. simpl in T. destruct T as [Ha He].
    split.
    + apply (Math_round_monotone 80 acc Ha).
    + apply (Math_round_monotone 70 eff He).
  - destruct (ge acc 60 && ge eff 50).
    + split; [discriminate | intros _]. simpl in T.
      destruct T as [_ [Ha He]].
      split.
      * apply (Math_round_monotone 60 acc Ha).
      * apply (Math_round_monotone 50 eff He).
    + split; discriminate.
Qed.

Lemma tier_sound_witness :
  80 <= accuracy (generateSessionStats 10 8 300 12) /\
  70 <= efficiency (generateSessionStats 10 8 300 12).
Proof.
  exact (proj1 (tier_sound 10 8 300 12) eq_refl).
Defined.

Lemma accuracy_bounded (qr ca d r : number) :
  0 <= ca -> ca <= qr ->
  0 <= accuracy (generateSessionStats qr ca d r) /\
  accuracy (generateSessionStats qr ca d r) <= 100.
Proof.
  intros H0 H1. unfold generateSessionStats. cbn [accuracy].
  destruct (gt qr 0) eqn:G.
  - apply gt_true in G.
    assert (0 <= ca / qr) as A.
    { unfold Qdiv. apply Qmult_le_0_compat; [exact H0 |].
      apply Qinv_le_0_compat. lra. }
    assert (ca / qr <= 1) as B.
    { apply Qle_shift_div_r; [exact G | lra]. }
    set (a := ca / qr) in *. clearbody a. split.
    + apply (Math_round_monotone 0). lra.
    + apply (Math_round_monotone _ 100). lra.
  - split; discriminate.
Qed.

(** X12. On numbers (an average response time that is not NaN) the
    returned efficiency is between 0 and 100; when the number of correct
    answers is between 0 and the number of questions reviewed, the
    returned accuracy is between 0 and 100; and the returned rate is
    never negative for a non-negative number of questions. *)
Theorem figures_bounded (qr ca d r : number) :
  let s := generateSessionStats qr ca d r in
  (0 <= efficiency s /\ efficiency s <= 100) /\
  (0 <= ca -> ca <= qr -> 0 <= accuracy s /\ accuracy s <= 100) /\
  (0 <= qr -> 0 <= questionsPerMinute s).
Proof.
  intro s. unfold s, generateSessionStats.
  cbn [accuracy efficiency questionsPerMinute].
  refine (conj _ (conj _ _)).
  - pose proof (Qabs_nonneg (r - 15)) as N.
    unfold Math_abs. set (a := Qabs (r - 15)) in *. clearbody a.
    split.
    + apply (Math_round_monotone 0). minmax_vars. lra.
    + apply (Math_round_monotone _ 100). minmax_vars. lra.
  - intros H0 H1. exact (accuracy_bounded qr ca d r H0 H1).
  - intro H0. destruct (gt d 0) eqn:G.
    + apply gt_true in G.
      assert (0 <= qr / (d / 60)) as A.
      { unfold Qdiv. apply Qmult_le_0_compat; [exact H0 |].
        apply Qinv_le_0_compat. apply Qmult_le_0_compat; [lra |].
        discriminate. }
      set (a := qr / (d / 60)) in *. clearbody a.
      assert (0 <= Math_round (a * 10)) as R.
      { apply (Math_round_monotone 0). lra. }
      unfold Qdiv. apply Qmult_le_0_compat; [exact R | discriminate].
    + discriminate.
Qed.

Lemma figures_bounded_witness :
  0 <= accuracy (generateSessionStats 10 8 300 12) /\
  accuracy (generateSessionStats 10 8 300 12) <= 100.
Proof.
  apply (proj1 (proj2 (figures_bounded 10 8 300 12))); discriminate.
Defined.

End SessionExtras.

(** ** The counters of a review session *)

Module ReviewSessionFacts.
Import JS JSFacts SpacedRepetition ReviewSession SessionExtras.

Lemma fold_counters (answers : list (Performance * number))
    (c : Counters) :
  let c' :=
    fold_left (fun prev a => handleAnswer prev (fst a) (snd a)) answers c in
  questionsReviewed c'
    == questionsReviewed c + inject_Z (Z.of_nat (List.length answers)) /\
  (0 <= correctAnswers c -> correctAnswers c <= questionsReviewed c ->
   0 <= correctAnswers c' /\ correctAnswers c' <= questionsReviewed c').
Proof.
  revert c. induction answers as [| [p t] answers IH]; intro c;
    cbn [fold_left List.length fst snd].
  - split; [symmetry; apply Qplus_0_r | tauto].
  - destruct (IH (handleAnswer c p t)) as [A B]. split.
    + rewrite A. cbn [handleAnswer questionsReviewed].
      rewrite Nat2Z.inj_succ, <- Z.add_1_l, inject_Z_plus.
      change (inject_Z 1) with 1.
      set (x := inject_Z (Z.of_nat (List.length answers))). clearbody x.
      set (y := questionsReviewed c). clearbody y. lra.
    + intros H0 H1. apply B;
        cbn [handleAnswer correctAnswers questionsReviewed];
        destruct p; lra.
Qed.

(** X13. After any sequence of answers the session counters hold the
    number of answers as questionsReviewed and between 0 and that many
    correctAnswers; the statistics computed from them have a returned
    accuracy between 0 and 100. *)
Theorem session_counters (answers : list (Performance * number))
    (sessionDuration : number) :
  let c := answer_all answers in
  questionsReviewed c == inject_Z (Z.of_nat (List.length answers)) /\
  0 <= correctAnswers c /\ correctAnswers c <= questionsReviewed c /\
  0 <= accuracy (finishSession c sessionDuration) /\
  accuracy (finishSession c sessionDuration) <= 100.
Proof.
  intro c. destruct (fold_counters answers initialCounters) as [A B].
  fold (answer_all answers) in A, B. fold c in A, B.
  destruct B as [B0 B1]; [apply Qle_refl | apply Qle_refl |].
  refine (conj _ (conj B0 (conj B1 _))).
  - rewrite A. cbn [initialCounters questionsReviewed]. apply Qplus_0_l.
  - unfold finishSession. apply accuracy_bounded; assumption.
Qed.

End ReviewSessionFacts.

(** ** The simple progress update *)

Module SimpleProgressFacts.
Import JS JSFacts TimeFacts SpacedRepetition SimpleProgress AnswerExtras
  Examples.

(** X14. [createOrUpdateProgress] creates a record with an interval of 5
    hours that is not completed and is due at the instant at which the
    local clock reads five hours more than now (five hours from now when
    the offset is kept over these hours, [Spec.offset_kept]); on an
    existing record with an interval
    between 1 and 168 hours it keeps the interval in that range, never
    shortening it after a correct answer and never lengthening it after a
    wrong one; with 0 <= correctAnswers <= totalAttempts stored it writes
    a masteryLevel between 0 and 100; and it marks a record completed only
    with at least 3 attempts and a written masteryLevel of at least 80. *)
Theorem createOrUpdateProgress_invariant
    (tz : TimeZone) (now : Date) (docSnap : option Progress)
    (isCorrect : bool) :
  let w := createOrUpdateProgress tz now docSnap isCorrect in
  (docSnap = None ->
   reviewInterval' w == 5 /\ isCompleted' w = false /\
   nextReviewAt' w = Spec.clock_hours_later tz now 5 /\
   (Spec.offset_kept tz now 5 ->
    nextReviewAt' w = (now + 5 * msPerHour)%Z)) /\
  (forall p, docSnap = Some p ->
     1 <= reviewInterval p -> reviewInterval p <= 168 ->
     1 <= reviewInterval' w /\ reviewInterval' w <= 168 /\
     (isCorrect = true -> reviewInterval p <= reviewInterval' w) /\
     (isCorrect = false -> reviewInterval' w <= reviewInterval p)) /\
  (forall p, docSnap = Some p ->
     0 <= correctAnswers p -> correctAnswers p <= totalAttempts p ->
     0 <= masteryLevel' w /\ masteryLevel' w <= 100) /\
  (isCompleted' w = true ->
   3 <= totalAttempts' w /\ 80 <= masteryLevel' w).
Proof.
  intro w. refine (conj _ (conj _ (conj _ _))).
  - intros ->.
    assert (nextReviewAt' w = Spec.clock_hours_later tz now 5) as N.
    { unfold w. cbn [createOrUpdateProgress nextReviewAt'].
      rewrite setHours_later; [reflexivity | discriminate]. }
    refine (conj _ (conj _ (conj N _))); try reflexivity.
    intro K. rewrite N. apply (offset_kept_later tz now 5 K).
  - intros p -> Hlo Hhi. unfold w. cbn [createOrUpdateProgress reviewInterval'].
    assert (reviewInterval p / 2 + reviewInterval p / 2 == reviewInterval p)
      as Hh by field.
    set (i := reviewInterval p) in *. set (a := i / 2) in *.
    clearbody a. clearbody i.
    destruct isCorrect;
      (refine (conj _ (conj _ (conj _ _)));
       [ | | intro E | intro E]; try discriminate E; minmax_vars; lra).
  - intros p -> H0 H1. unfold w.
    cbn [createOrUpdateProgress masteryLevel'].
    set (c := correctAnswers p) in *. set (t := totalAttempts p) in *.
    clearbody c t.
    assert (0 <= (if isCorrect then c + 1 else c)) as N
      by (destruct isCorrect; lra).
    assert ((if isCorrect then c + 1 else c) <= t + 1) as M
      by (destruct isCorrect; lra).
    set (n := if isCorrect then c + 1 else c) in *. clearbody n.
    assert (0 <= n / (t + 1)) as A.
    { unfold Qdiv. apply Qmult_le_0_compat; [exact N |].
      apply Qinv_le_0_compat. lra. }
    assert (n / (t + 1) <= 1) as B.
    { apply Qle_shift_div_r; lra. }
    set (a := n / (t + 1)) in *. clearbody a. split.
    + apply (Math_round_monotone 0). lra.
    + apply (Math_round_monotone _ 100). lra.
  - unfold w. destruct docSnap as [p |];
      cbn [createOrUpdateProgress isCompleted' totalAttempts' masteryLevel'];
      [| discriminate].
    intro H. apply andb_true_iff in H. destruct H as [Ha Ht].
    apply ge_true in Ha, Ht. split; [exact Ht |].
    apply (Math_round_monotone 80).
    set (a := _ / _) in *. clearbody a. lra.
Qed.

Lemma createOrUpdateProgress_invariant_witness :
  1 <= reviewInterval'
         (createOrUpdateProgress utc 0%Z (Some (stored 2 100 None)) true) /\
  reviewInterval'
    (createOrUpdateProgress utc 0%Z (Some (stored 2 100 None)) true) <= 168 /\
  0 <= masteryLevel'
         (createOrUpdateProgress utc 0%Z (Some (stored 2 100 None)) false) /\
  3 <= totalAttempts'
         (createOrUpdateProgress utc 0%Z (Some (stored 2 100 None)) true).
Proof.
  pose proof (createOrUpdateProgress_invariant utc 0%Z
                (Some (stored 2 100 None)) true) as T.
  pose proof (createOrUpdateProgress_invariant utc 0%Z
                (Some (stored 2 100 None)) false) as F.
  destruct T as [_ [T1 [_ T3]]]. destruct F as [_ [_ [F2 _]]].
  destruct (T1 _ eq_refl) as [A [B _]]; try discriminate.
  destruct (F2 _ eq_refl) as [C _]; try discriminate.
  destruct (T3 eq_refl) as [D _].
  exact (conj A (conj B (conj C D))).
Defined.

End SimpleProgressFacts.

(** ** Review reminders *)

Module NotificationFacts.
Import JS JSFacts SpacedRepetition Notifications NotificationSpec Examples.

Lemma map_set_keys (key : Z) (value : number) (m : HourMap) :
  map fst (map_set key value m)
  = if existsb (fun k => (k =? key)%Z) (map fst m) then map fst m
    else map fst m ++ [key].
Proof.
  induction m as [| [k v] m IH]; simpl; [reflexivity |].
  destruct (k =? key)%Z eqn:E; simpl; [reflexivity |].
  rewrite IH. destruct (existsb _ _); reflexivity.
Qed.

Lemma map_set_total (key : Z) (value : number) (m : HourMap) :
  total_count (map_set key value m)
  == total_count m
     - match map_get key m with Some n => n | None => 0 end + value.
Proof.
  induction m as [| [k v] m IH]; simpl.
  - lra.
  - destruct (k =? key)%Z; simpl; [lra |]. rewrite IH.
    set (x := match map_get key m with Some n => n | None => 0 end).
    clearbody x. set (y := total_count m). clearbody y. lra.
Qed.

Lemma map_set_values (key : Z) (value : number) (m : HourMap)
    (P : number -> Prop) :
  Forall (fun e => P (snd e)) m -> P value ->
  Forall (fun e => P (snd e)) (map_set key value m).
Proof.
  intros H Hv. induction H as [| [k v] m Hk Hm IH]; simpl.
  - constructor; [exact Hv | constructor].
  - destruct (k =? key)%Z; constructor; assumption.
Qed.

Lemma map_get_value (key : Z) (m : HourMap) (P : number -> Prop) :
  Forall (fun e => P (snd e)) m ->
  match map_get key m with Some n => P n | None => True end.
Proof.
  induction 1 as [| [k v] m Hk _ IH]; simpl; [exact I |].
  destruct (k =? key)%Z; assumption.
Qed.

Section LocalTime.
Variable offset : Z.

Lemma hour_of (t : Date) :
  (hourStart offset (hourKey offset t) <= t
   < hourStart offset (hourKey offset t) + msPerHour)%Z.
Proof.
  unfold hourStart, hourKey, msPerHour.
  pose proof (Z.mul_div_le (t + offset) 3600000 ltac:(lia)).
  pose proof (Z.mul_succ_div_gt (t + offset) 3600000 ltac:(lia)).
  lia.
Qed.

Lemma count_question_total (m : HourMap) (q : Progress) :
  total_count (count_question offset m q) == total_count m + 1.
Proof.
  unfold count_question. rewrite map_set_total.
  destruct (map_get _ m) as [n |].
  - rewrite or_else_zero. set (y := total_count m). clearbody y. lra.
  - set (y := total_count m). clearbody y. lra.
Qed.

Lemma group_fold (l : list Progress) (m : HourMap) :
  NoDup (map fst m) ->
  Forall (fun e => 1 <= snd e) m ->
  let g := fold_left (count_question offset) l m in
  NoDup (map fst g) /\
  Forall (fun e => 1 <= snd e) g /\
  total_count g
    == total_count m + inject_Z (Z.of_nat (List.length l)) /\
  (forall k, In k (map fst g) ->
     In k (map fst m) \/
     exists q, In q l /\ k = hourKey offset (nextReviewAt q)).
Proof.
  revert m. induction l as [| q l IH]; intros m Hn Hc;
    cbn [fold_left List.length].
  - refine (conj Hn (conj Hc (conj _ _))).
    + symmetry. apply Qplus_0_r.
    + intros k Hk. left. exact Hk.
  - assert (NoDup (map fst (count_question offset m q))) as Hn'.
    { unfold count_question. rewrite map_set_keys.
      destruct (existsb _ _) eqn:E; [exact Hn |].
      apply NoDup_app; [exact Hn | constructor; [intros [] | constructor] |].
      intros k Hk [Heq | []].
      rewrite <- not_true_iff_false in E. apply E.
      apply existsb_exists. exists k.
      split; [exact Hk | rewrite Heq; apply Z.eqb_refl]. }
    assert (Forall (fun e => 1 <= snd e) (count_question offset m q)) as Hc'.
    { unfold count_question. apply map_set_values; [exact Hc |].
      pose proof (map_get_value (hourKey offset (nextReviewAt q)) m
                    (fun n => 1 <= n) Hc) as G.
      destruct (map_get _ m) as [n |]; [| discriminate].
      rewrite or_else_zero. lra. }
    destruct (IH _ Hn' Hc') as [A [B [C D]]].
    refine (conj A (conj B (conj _ _))).
    + rewrite C, count_question_total.
      rewrite Nat2Z.inj_succ, <- Z.add_1_l, inject_Z_plus.
      change (inject_Z 1) with 1.
      set (x := inject_Z (Z.of_nat (List.length l))). clearbody x.
      set (y := total_count m). clearbody y. lra.
    + intros k Hk. destruct (D k Hk) as [Hm | [q' [Hq' ->]]].
      * unfold count_question in Hm. rewrite map_set_keys in Hm.
        destruct (existsb _ _); [left; exact Hm |].
        apply in_app_or in Hm. destruct Hm as [Hm | [<- | []]].
        -- left. exact Hm.
        -- right. exists q. split; [left; reflexivity | reflexivity].
      * right. exists q'. split; [right; exact Hq' | reflexivity].
Qed.

End LocalTime.

Lemma group_keys (offset : Z) (dueQuestions : list Progress) (k : Z) :
  In k (map fst (group_by_hour offset dueQuestions)) ->
  exists q, In q dueQuestions /\ k = hourKey offset (nextReviewAt q).
Proof.
  intro Hk.
  destruct (group_fold offset dueQuestions [] (NoDup_nil _) (Forall_nil _))
    as [_ [_ [_ D]]].
  destruct (D k Hk) as [[] | H]. exact H.
Qed.

Lemma scheduled_from_pool (offset : Z) (now : Date)
    (dueQuestions : list Progress) (n : NotificationSchedule) :
  In n (scheduleReviewReminders offset now dueQuestions) ->
  (now < scheduledTime n)%Z /\
  exists q, In q dueQuestions /\
    scheduledTime n = hourStart offset (hourKey offset (nextReviewAt q)).
Proof.
  unfold scheduleReviewReminders.
  pose proof (group_keys offset dueQuestions) as K.
  destruct dueQuestions as [| q0 l]; [intros [] |].
  set (pool := q0 :: l) in *. clearbody pool. intro Hn.
  apply in_flat_map in Hn. destruct Hn as [[k c] [Hk Hn]].
  destruct (now <? hourStart offset k)%Z eqn:E; [| contradiction].
  destruct Hn as [<- | []]. cbn [scheduledTime].
  apply Z.ltb_lt in E. split; [exact E |].
  destruct (K k) as [q [Hq ->]].
  { apply in_map_iff. exists (k, c). split; [reflexivity | exact Hk]. }
  exists q. split; [exact Hq | reflexivity].
Qed.



(** X17. For a pool of questions that are due (nextReviewAt not after the
    clock), which is what [getDueQuestions] asks the store for, no
    reminder is scheduled at all. *)
Theorem no_reminder_for_due_questions (offset : Z) (now : Date)
    (dueQuestions : list Progress) :
  Forall (fun q => (nextReviewAt q <= now)%Z) dueQuestions ->
  scheduleReviewReminders offset now dueQuestions = [].
Proof.
  intro Hdue.
  destruct (scheduleReviewReminders offset now dueQuestions) as [| n l] eqn:S;
    [reflexivity |].
  exfalso.
  destruct (scheduled_from_pool offset now dueQuestions n)
    as [Hlater [q [Hq E]]].
  { rewrite S. left. reflexivity. }
  rewrite Forall_forall in Hdue. specialize (Hdue q Hq).
  pose proof (hour_of offset (nextReviewAt q)) as H. lia.
Qed.

Lemma no_reminder_for_due_questions_witness :
  scheduleReviewReminders 7200000 10000000
    [item 9000000 9999999 70; item 1000 9999999 10;
     item 9500000 10000000 20]
  = [].
Proof.
  apply no_reminder_for_due_questions.
  repeat constructor; simpl; lia.
Defined.

End NotificationFacts.

(** ** More on AI question generation *)

Module GeminiExtras.
Import Gemini GeminiSpec GeminiFacts Examples MoreExamples.

Local Open Scope string_scope.

Lemma bind_inr {A B : Type} (m : result A) (k : A -> result B) (b : B) :
  bind m k = inr b -> exists a, m = inr a /\ k a = inr b.
Proof.
  destruct m as [e | a]; simpl; [discriminate |].
  intro H. exists a. split; [reflexivity | exact H].
Qed.

Lemma to_question_difficulty (d : Difficulty) (q : json) g :
  to_question d q = inr g -> difficulty g = d.
Proof.
  unfold to_question. intro H.
  repeat (apply bind_inr in H; destruct H as [? [_ H]]).
  injection H as <-. reflexivity.
Qed.

Lemma map_result_inr {A B : Type} (f : A -> result B) (l : list A) ys :
  map_result f l = inr ys -> Forall2 (fun x y => f x = inr y) l ys.
Proof.
  revert ys. induction l as [| x l IH]; simpl; intros ys H.
  - injection H as <-. constructor.
  - apply bind_inr in H. destruct H as [y [Hy H]].
    apply bind_inr in H. destruct H as [ys' [Hys H]].
    injection H as <-. constructor; [exact Hy | apply IH; exact Hys].
Qed.

Lemma partial_question_difficulty (d : Difficulty) g :
  partial_question d g -> difficulty g = d.
Proof. intros [q [a [-> _]]]. reflexivity. Qed.

Section Parser.
Variable JSON_parse : string -> option json.

Lemma parse_json_questions_inr (s : string) (d : Difficulty) qs :
  parse_json_questions JSON_parse (Some (JString s)) d = inr qs ->
  exists jsonMatch parsed elements,
    match_braces s = Some jsonMatch /\
    JSON_parse jsonMatch = Some parsed /\
    get (Some parsed) "questions" = inr (Some (JArray elements)) /\
    Forall2 (fun q g => to_question d q = inr g) elements qs.
Proof.
  unfold parse_json_questions. cbn [string_receiver bind ret].
  destruct (match_braces s) as [m |] eqn:Em; [| discriminate].
  destruct (JSON_parse m) as [parsed |] eqn:Ep; [| discriminate].
  intro H. apply bind_inr in H. destruct H as [v [Hv H]].
  destruct v as [[| | | | elements |] |]; try discriminate.
  exists m, parsed, elements.
  refine (conj eq_refl (conj Ep (conj Hv _))).
  apply map_result_inr. exact H.
Qed.

(** X18. Every question that [generateQuestions] returns carries the
    requested difficulty ('medium' when none is given), whatever the
    model wrote, on the JSON path and on the fallback path alike. *)
Theorem returned_difficulty (apiKey : string)
    (fetched : result Response) (d : option Difficulty) qs :
  generateQuestions JSON_parse apiKey fetched d = inr qs ->
  Forall
    (fun g => difficulty g = match d with Some d => d | None => medium end)
    qs.
Proof.
  intro H.
  destruct (generateQuestions_inr_inv _ _ _ _ _ H)
    as [_ (response & data & s & _ & _ & _ & _ & P)].
  set (dd := match d with Some d => d | None => medium end) in *.
  clearbody dd. unfold parseGeneratedQuestions, try_catch in P.
  destruct (parse_json_questions JSON_parse (Some (JString s)) dd)
    as [e | qs'] eqn:E.
  - cbn in P. injection P as <-.
    apply (Forall_impl _ (partial_question_difficulty dd)).
    apply scan_lines_partial.
  - injection P as <-.
    destruct (parse_json_questions_inr _ _ _ E)
      as (m & parsed & elements & _ & _ & _ & F).
    clear E H. induction F as [| q g l l' Hq _ IH]; constructor.
    + apply (to_question_difficulty dd q). exact Hq.
    + exact IH.
Qed.

(** X19. When the JSON path succeeds the result has one question per
    element of the [questions] array, in the order of the array: the
    requested count is not enforced. *)
Theorem json_path_one_per_element (s : string) (d : Difficulty) qs :
  parse_json_questions JSON_parse (Some (JString s)) d = inr qs ->
  parseGeneratedQuestions JSON_parse (Some (JString s)) d = inr qs /\
  exists jsonMatch parsed elements,
    match_braces s = Some jsonMatch /\
    JSON_parse jsonMatch = Some parsed /\
    get (Some parsed) "questions" = inr (Some (JArray elements)) /\
    List.length qs = List.length elements /\
    Forall2 (fun q g => to_question d q = inr g) elements qs.
Proof.
  intro H. split.
  - unfold parseGeneratedQuestions. rewrite H. reflexivity.
  - destruct (parse_json_questions_inr _ _ _ H)
      as (m & parsed & elements & A & B & C & F).
    exists m, parsed, elements.
    repeat (split; [assumption |]). split; [| exact F].
    symmetry. apply (Forall2_length F).
Qed.

Lemma map_result_null (d : Difficulty) (elements : list json) :
  In JNull elements ->
  exists e, map_result (to_question d) elements = inl e.
Proof.
  induction elements as [| x l IH]; intro H; [destruct H |].
  destruct H as [-> | H]; simpl.
  - exists TypeError. reflexivity.
  - destruct (to_question d x) as [e | g]; simpl;
      [exists e; reflexivity |].
    destruct (IH H) as [e ->]. exists e. reflexivity.
Qed.

(** X20. One null element in the [questions] array discards the whole
    parsed answer: the result is then the list of the fallback parser over
    the raw text, however many well-formed questions the array held. *)
Theorem null_question_discards_all (s jsonMatch : string)
    (d : Difficulty) (parsed : json) (elements : list json) :
  match_braces s = Some jsonMatch ->
  JSON_parse jsonMatch = Some parsed ->
  get (Some parsed) "questions" = inr (Some (JArray elements)) ->
  In JNull elements ->
  parseGeneratedQuestions JSON_parse (Some (JString s)) d
  = inr (scan_lines d s).
Proof.
  intros A B C N. destruct (map_result_null d elements N) as [e E].
  apply parse_text_fallback with e.
  unfold parse_json_questions. cbn [string_receiver bind ret].
  rewrite A, B, C. cbn [bind]. exact E.
Qed.

End Parser.

Lemma json_path_one_per_element_witness :
  exists qs,
    parseGeneratedQuestions
      (parse_as (JObject [("questions", JArray [JObject []; JObject []])]))
      (Some (JString braced_text)) hard = inr qs /\
    List.length qs = 2%nat.
Proof.
  eexists.
  destruct (json_path_one_per_element
              (parse_as
                 (JObject [("questions", JArray [JObject []; JObject []])]))
              braced_text hard _ eq_refl) as [H _].
  split; [exact H | reflexivity].
Defined.

Lemma null_question_discards_all_witness :
  parseGeneratedQuestions (parse_as questions_with_null)
    (Some (JString braced_text)) medium
  = inr [].
Proof.
  apply (null_question_discards_all (parse_as questions_with_null)
           braced_text "{...}" medium questions_with_null
           [JObject [("question", JString "What is recall?");
                     ("answer", JString "Retrieval")]; JNull]).
  - reflexivity.
  - reflexivity.
  - reflexivity.
  - right. left. reflexivity.
Defined.

Lemma returned_difficulty_witness :
  Forall (fun g => difficulty g = medium)
    [open_question "What is recall?" "Retrieval from memory" medium].
Proof.
  exact (returned_difficulty reject_all "key"
           (inr (success (envelope_with plain_text))) None _ eq_refl).
Defined.

Lemma lower_idempotent (c : ascii) : lower (lower c) = lower c.
Proof.
  destruct c as [[] [] [] [] [] [] [] []]; reflexivity.
Qed.

Lemma toLowerCase_idempotent (s : string) :
  toLowerCase (toLowerCase s) = toLowerCase s.
Proof.
  induction s as [| c s IH]; simpl; [reflexivity |].
  rewrite lower_idempotent, IH. reflexivity.
Qed.

(** X21. [validateQuestionType] never fails on a string or on a missing
    type, and it does not look at the case of the letters: a type and its
    lower-case form are validated alike. *)
Theorem validateQuestionType_case (s : string) :
  validateQuestionType (Some (JString s))
  = validateQuestionType (Some (JString (toLowerCase s))) /\
  (exists t, validateQuestionType (Some (JString s)) = inr t) /\
  validateQuestionType None = inr open /\
  validateQuestionType (Some JNull) = inr open.
Proof.
  refine (conj _ (conj _ (conj eq_refl eq_refl))).
  - unfold validateQuestionType. rewrite toLowerCase_idempotent.
    reflexivity.
  - unfold validateQuestionType.
    destruct (_ || _); [eexists; reflexivity |].
    destruct (_ || _); eexists; reflexivity.
Qed.

End GeminiExtras.

(** ** The text scanners of the question parser *)

Module ScannerFacts.
Import Gemini GeminiFacts ScannerSpec.

Local Open Scope string_scope.

Lemma chars_app (a b : string) : list_ascii_of_string (a ++ b) = (list_ascii_of_string a ++ list_ascii_of_string b)%list.
Proof.
  induction a as [| c a IH]; simpl; [reflexivity | now rewrite IH].
Qed.

Lemma through_last_brace_spec (r : string) :
  match through_last_brace r with
  | Some kept =>
      exists mid post,
        r = mid ++ "}" ++ post /\ kept = mid ++ "}" /\
        ~ In "}"%char (list_ascii_of_string post)
  | None => ~ In "}"%char (list_ascii_of_string r)
  end.
Proof.
  induction r as [| c r IH]; simpl; [tauto |].
  destruct (through_last_brace r) as [kept |].
  - destruct IH as (mid & post & -> & -> & N).
    exists (String c mid), post. repeat split; [reflexivity.. | exact N].
  - destruct (Ascii.eqb_spec c "}") as [-> | Hc].
    + exists EmptyString, r. repeat split; [reflexivity.. | exact IH].
    + intros [E | H]; [apply Hc; exact E | exact (IH H)].
Qed.

Lemma closing_in (a b c : string) :
  In "}"%char (list_ascii_of_string (a ++ "{" ++ b ++ "}" ++ c)).
Proof.
  induction a as [| x a IH]; simpl; [| right; exact IH].
  right. induction b as [| y b IHb]; simpl;
    [left; reflexivity | right; exact IHb].
Qed.

(** X22. The text handed to [JSON.parse] runs from the first opening
    brace of the generated text to its last closing brace; there is no
    such text, and the fallback parser runs, exactly when no closing brace
    follows an opening one. *)
Theorem match_braces_span (s : string) :
  match match_braces s with
  | Some jsonMatch =>
      exists pre mid post,
        s = pre ++ "{" ++ mid ++ "}" ++ post /\
        jsonMatch = "{" ++ mid ++ "}" /\
        ~ In "{"%char (list_ascii_of_string pre) /\ ~ In "}"%char (list_ascii_of_string post)
  | None => forall a b c, s <> a ++ "{" ++ b ++ "}" ++ c
  end.
Proof.
  induction s as [| x s IH]; simpl.
  - intros [| ? a] b c; discriminate.
  - destruct (Ascii.eqb_spec x "{") as [-> | Hx].
    + pose proof (through_last_brace_spec s) as T.
      destruct (through_last_brace s) as [kept |].
      * destruct T as (mid & post & -> & -> & N).
        exists EmptyString, mid, post.
        repeat split; [reflexivity.. | intros [] | exact N].
      * intros a b c E. apply T.
        assert (In "}"%char (list_ascii_of_string (String "{" s))) as H
          by (rewrite E; exact (closing_in a b c)).
        destruct H as [H | H]; [discriminate H | exact H].
    + destruct (match_braces s) as [m |].
      * destruct IH as (pre & mid & post & -> & -> & Np & N).
        exists (String x pre), mid, post.
        repeat split; [reflexivity.. | | exact N].
        intros [E | H]; [apply Hx; exact E | exact (Np H)].
      * intros [| y a] b c E; simpl in E.
        -- injection E as E _. apply Hx. exact E.
        -- injection E as _ E. exact (IH a b c E).
Qed.

Lemma includes_char (s : string) (c : ascii) :
  includes s (String c EmptyString) = true -> In c (list_ascii_of_string s).
Proof.
  induction s as [| x s IH]; simpl; [discriminate |].
  destruct (ascii_dec c x) as [-> | N].
  - intros _. left. reflexivity.
  - intro H. right. apply IH. exact H.
Qed.

Lemma split_chars (sep c : ascii) (s line : string) :
  In line (split sep s) -> In c (list_ascii_of_string line) -> In c (list_ascii_of_string s).
Proof.
  revert line. induction s as [| x s IH]; simpl; intros line Hl Hc.
  - destruct Hl as [<- | []]. exact Hc.
  - destruct (Ascii.eqb x sep).
    + destruct Hl as [<- | Hl]; [destruct Hc |].
      right. apply (IH line Hl Hc).
    + destruct (split sep s) as [| first others] eqn:E.
      * destruct Hl as [<- | []]. destruct Hc as [Hc | []].
        left. exact Hc.
      * destruct Hl as [<- | Hl].
        -- destruct Hc as [Hc | Hc]; [left; exact Hc |].
           right. apply (IH first); [left; reflexivity | exact Hc].
        -- right. apply (IH line); [right; exact Hl | exact Hc].
Qed.

Section Counting.
Variable d : Difficulty.

Lemma scan_line_count st (line : string) :
  (List.length (fst (fst (scan_line d st line)))
   + pending (snd (fst (scan_line d st line)))
   <= List.length (fst (fst st)) + pending (snd (fst st))
      + (if is_question line then 1 else 0))%nat.
Proof.
  destruct st as [[qs cq] ca]. unfold scan_line, is_question, pending.
  cbn [fst snd].
  destruct (includes (toLowerCase line) "question" && includes line ":").
  - cbn [fst snd].
    destruct (nonempty cq); cbn [andb].
    + destruct (nonempty ca); [rewrite length_app |];
        destruct (nonempty (after_colon line)); simpl; lia.
    + destruct (nonempty (after_colon line)); simpl; lia.
  - destruct (includes (toLowerCase line) "answer" && includes line ":");
      cbn [fst snd]; lia.
Qed.

Lemma scan_fold_count (lines : list string) st :
  (List.length (fst (fst (fold_left (scan_line d) lines st)))
   + pending (snd (fst (fold_left (scan_line d) lines st)))
   <= List.length (fst (fst st)) + pending (snd (fst st))
      + List.length (filter is_question lines))%nat.
Proof.
  revert st. induction lines as [| l lines IH]; intro st; simpl; [lia |].
  pose proof (IH (scan_line d st l)) as A.
  pose proof (scan_line_count st l) as B.
  destruct (is_question l); simpl; lia.
Qed.

Lemma filter_filter_length {A : Type} (f g : A -> bool) (l : list A) :
  (List.length (filter f (filter g l)) <= List.length (filter f l))%nat.
Proof.
  induction l as [| x l IH]; simpl; [lia |].
  destruct (g x), (f x) eqn:E; simpl; try rewrite E; simpl; lia.
Qed.

Lemma scan_lines_count (text : string) :
  (List.length (scan_lines d text)
   <= List.length (filter is_question (split newline text)))%nat.
Proof.
  unfold scan_lines.
  set (lines := filter (fun line => nonempty (trim line))
                  (split newline text)).
  pose proof (scan_fold_count lines ([], EmptyString, EmptyString)) as A.
  pose proof (filter_filter_length is_question
                (fun line => nonempty (trim line)) (split newline text))
    as B.
  fold lines in B.
  destruct (fold_left (scan_line d) lines ([], EmptyString, EmptyString))
    as [[qs cq] ca].
  unfold pending in A. cbn [fst snd nonempty List.length] in A.
  destruct (nonempty cq); cbn [andb].
  - destruct (nonempty ca); [rewrite length_app |]; simpl; lia.
  - lia.
Qed.

End Counting.

Lemma filter_none {A : Type} (f : A -> bool) (l : list A) :
  (forall x, In x l -> f x = false) -> filter f l = [].
Proof.
  induction l as [| x l IH]; intro H; simpl; [reflexivity |].
  rewrite (H x (or_introl eq_refl)). apply IH.
  intros y Hy. apply H. right. exact Hy.
Qed.

(** X23. The fallback parser returns at most one question per line that
    holds the word 'question' (in any case) and a colon; from a text
    without any colon, the empty text included, it returns no question. *)
Theorem fallback_bounded (d : Difficulty) (text : string) :
  (List.length (scan_lines d text)
   <= List.length
        (filter
           (fun line =>
              includes (toLowerCase line) "question" && includes line ":")
           (split newline text)))%nat /\
  (~ In ":"%char (list_ascii_of_string text) -> scan_lines d text = []).
Proof.
  assert (List.length (scan_lines d text)
          <= List.length
               (filter
                  (fun line =>
                     includes (toLowerCase line) "question"
                     && includes line ":")
                  (split newline text)))%nat as A
    by exact (scan_lines_count d text).
  split; [exact A |]. intro N.
  assert (filter
            (fun line =>
               includes (toLowerCase line) "question" && includes line ":")
            (split newline text) = []) as E.
  { apply filter_none. intros line Hl.
    destruct (includes line ":") eqn:I; [| apply andb_false_r].
    exfalso. apply N. apply (split_chars newline ":" text line Hl).
    apply includes_char. exact I. }
  rewrite E in A. simpl in A.
  destruct (scan_lines d text); [reflexivity | simpl in A; lia].
Qed.

Lemma fallback_bounded_witness :
  scan_lines medium "No structure here at all" = [].
Proof.
  apply (proj2 (fallback_bounded medium "No structure here at all")).
  simpl. intuition discriminate.
Defined.

End ScannerFacts.

(** ** Session types and the time since the last answer *)

Module WindowFacts.
Import JS JSFacts TimeFacts SpacedRepetition ReviewFacts AnswerExtras
  Examples.

Lemma In_slice0 {A : Type} (l : list A) (n : Z) (x : A) :
  In x (Array_slice0 l n) -> In x l.
Proof.
  unfold Array_slice0. destruct (n <? 0)%Z; apply ReviewExtras.In_firstn.
Qed.

Lemma selected_kept (tz : TimeZone) (now : Date) (pool : list Progress)
    (sessionType : option SessionType) (limit : option Z) (q : Progress) :
  In q (getQuestionsForReview tz now pool sessionType limit) ->
  In q pool /\
  Spec.kept tz now
    (match sessionType with Some t => t | None => spaced end) q = true.
Proof.
  rewrite selection_filter. intro H. apply In_slice0 in H.
  apply (Permutation_in q
           (Permutation_sym (Array_sort_perm (compareFn now) _))) in H.
  apply filter_In in H. exact H.
Qed.

Lemma between_the_bounds (tz : TimeZone) (now : Date)
    (pool : list Progress) (limit : option Z) (q : Progress) :
  (Spec.clock_hours_later tz now (-2) < lastAnsweredAt q)%Z ->
  (lastAnsweredAt q < Spec.clock_hours_later tz now (-1))%Z ->
  ~ In q (getQuestionsForReview tz now pool (Some immediate) limit) /\
  ~ In q (getQuestionsForReview tz now pool (Some spaced) limit) /\
  ~ In q (getQuestionsForReview tz now pool None limit).
Proof.
  intros Hlo Hhi. refine (conj _ (conj _ _)); intro H;
    apply selected_kept in H; destruct H as [_ H]; cbn [Spec.kept] in H;
    apply Z.leb_le in H; lia.
Qed.

(** X24. A record last answered after the instant at which the local
    clock read two hours less than now and before the instant at which
    it read one hour less is selected neither by an 'immediate' session
    nor by a 'spaced' one (the default), whatever the pool and the limit:
    only a 'manual' session can select it.  When the offset is kept over
    the last hour and the last two hours ([Spec.offset_kept]), these are
    the records answered more than one hour and less than two hours
    ago. *)
Theorem blind_window (tz : TimeZone) (now : Date) (pool : list Progress)
    (limit : option Z) (q : Progress) :
  let unselected :=
    ~ In q (getQuestionsForReview tz now pool (Some immediate) limit) /\
    ~ In q (getQuestionsForReview tz now pool (Some spaced) limit) /\
    ~ In q (getQuestionsForReview tz now pool None limit) in
  ((Spec.clock_hours_later tz now (-2) < lastAnsweredAt q)%Z ->
   (lastAnsweredAt q < Spec.clock_hours_later tz now (-1))%Z ->
   unselected) /\
  (Spec.offset_kept tz now (-1) -> Spec.offset_kept tz now (-2) ->
   (now - 2 * msPerHour < lastAnsweredAt q)%Z ->
   (lastAnsweredAt q < now - msPerHour)%Z ->
   unselected).
Proof.
  intro unselected. split.
  - apply between_the_bounds.
  - intros K1 K2 Hlo Hhi. apply between_the_bounds;
      rewrite ?(offset_kept_later tz now _ K1),
              ?(offset_kept_later tz now _ K2); unfold msPerHour in *; lia.
Qed.

Lemma blind_window_witness :
  (10000000 - 2 * msPerHour < 5000000 < 10000000 - msPerHour)%Z /\
  ~ In (item 5000000 9000000 40)
      (getQuestionsForReview utc 10000000
         [item 5000000 9000000 40; item 1000 9000000 10] None None).
Proof.
  assert (10000000 - 2 * msPerHour < 5000000)%Z as A
    by (unfold msPerHour; lia).
  assert (5000000 < 10000000 - msPerHour)%Z as B
    by (unfold msPerHour; lia).
  refine (conj (conj A B) _).
  exact (proj2 (proj2 (proj2 (blind_window utc 10000000
           [item 5000000 9000000 40; item 1000 9000000 10] None
           (item 5000000 9000000 40))
           (offset_kept_utc _ _) (offset_kept_utc _ _) A B))).
Defined.

(** X25. Where the offset is kept over the hour after the answer and
    over the two hours before the review ([Spec.offset_kept]), after a
    failed recall the question is due again one hour later, but a record
    holding the written times is not selected by a 'spaced' session (the
    default) until two hours after the answer: during the second hour it
    is due and left out. *)
Theorem lapse_not_reviewable
    (tz : TimeZone)
    (answered clock : Date) (cur : option Progress) (u q t : string)
    (rt : option number) (pool : list Progress) (limit : option Z)
    (p : Progress) :
  let w := processAnswer DEFAULT_CONFIG tz answered cur u q t again rt in
  Spec.offset_kept tz answered 1 ->
  Spec.offset_kept tz clock (-2) ->
  lastAnsweredAt p = w_lastAnsweredAt w ->
  nextReviewAt p = w_nextReviewAt w ->
  (answered + msPerHour <= clock)%Z ->
  (clock < answered + 2 * msPerHour)%Z ->
  (nextReviewAt p <= clock)%Z /\
  ~ In p (getQuestionsForReview tz clock pool None limit).
Proof.
  intros w K1 K2 Ha Hn Hlo Hhi.
  assert (w_nextReviewAt w = (answered + msPerHour)%Z) as E.
  { unfold w, processAnswer. cbn [w_nextReviewAt].
    rewrite setHours_later by discriminate.
    apply (offset_kept_later tz answered 1 K1). }
  assert (w_lastAnsweredAt w = answered) as F by reflexivity.
  split; [lia |].
  intro H. apply selected_kept in H. destruct H as [_ H].
  cbn [Spec.kept] in H. apply Z.leb_le in H.
  rewrite (offset_kept_later tz clock _ K2) in H.
  unfold msPerHour in *. lia.
Qed.

Lemma lapse_not_reviewable_witness :
  (3600000 <= 5000000)%Z /\
  ~ In (item 0 3600000 25)
      (getQuestionsForReview utc 5000000 [item 0 3600000 25] None None).
Proof.
  refine (lapse_not_reviewable utc 0%Z 5000000 None "u"%string
            "q"%string "t"%string None [item 0 3600000 25] None
            (item 0 3600000 25) (offset_kept_utc _ _) (offset_kept_utc _ _)
            eq_refl eq_refl _ _);
    unfold msPerHour; lia.
Defined.

End WindowFacts.

(** ** The time of the next review *)

Module ScheduleFacts.
Import JS JSFacts TimeFacts SpacedRepetition IntervalFacts.

(** X26. Whatever record is loaded and whatever the rating, the next
    review is scheduled for the instant at which the local clock reads a
    whole number of hours more than at the answer, at least 1, at most
    168 (one week) and never more than the written reviewInterval; when
    the offset is kept over these hours ([Spec.offset_kept]), that
    instant is between one hour and 168 hours after the answer. *)
Theorem next_review_within_a_week
    (tz : TimeZone) (now : Date) (cur : option Progress) (u q t : string)
    (perf : Performance) (rt : option number) :
  let w := processAnswer DEFAULT_CONFIG tz now cur u q t perf rt in
  exists hours : Z,
    (1 <= hours <= 168)%Z /\
    inject_Z hours <= w_reviewInterval w /\
    w_nextReviewAt w = Spec.clock_hours_later tz now hours /\
    (Spec.offset_kept tz now hours ->
     w_nextReviewAt w = (now + hours * msPerHour)%Z /\
     (now + msPerHour <= w_nextReviewAt w)%Z /\
     (w_nextReviewAt w <= now + 168 * msPerHour)%Z).
Proof.
  intro w. unfold w, processAnswer.
  cbn [w_nextReviewAt w_reviewInterval].
  match goal with
  | |- context [getHours tz now + calculateNextInterval _ ?i ?p ?k] =>
      pose proof (nextInterval_bounds i k p) as [Hlo Hhi];
      set (x := calculateNextInterval DEFAULT_CONFIG i p k) in *
  end.
  clearbody x.
  assert (1 <= Qfloor x)%Z as A.
  { change 1%Z with (Qfloor 1). apply Qfloor_resp_le. exact Hlo. }
  assert (Qfloor x <= 168)%Z as B.
  { change 168%Z with (Qfloor 168). apply Qfloor_resp_le. exact Hhi. }
  assert (setHours tz now (getHours tz now + x)
          = Spec.clock_hours_later tz now (Qfloor x)) as N.
  { apply setHours_later. lra. }
  exists (Qfloor x).
  refine (conj (conj A B) (conj (Qfloor_le x) (conj N _))).
  intro K. rewrite N, (offset_kept_later tz now _ K).
  unfold msPerHour. refine (conj _ (conj _ _)); lia.
Qed.

End ScheduleFacts.
